(** * Arcan frameserver transport: libretro publish paths, label translation
      and the packed cell raster decoder

    The development embeds the C functions of
    - the libretro frameserver ([libretro_vidcb], [libretro_audcb],
      [libretro_audscb], [ioev_ctxtbl], [remaptbl]) and
    - the TUI raster decoder ([unpack_u32], [unpack_cell], [linehint],
      [drawglyph], [raster_tobuf])
    as Rocq functions, and states the properties of the specification over
    them.

    Conventions.
    - C integers are [Z] with the wrap-around of their type written out
      ([u8], [u16], [u32], [usize]; [size_t] is taken to be 64 bits wide).
    - Behaviour that C leaves undefined (a store outside an array, a read
      past the memory behind a pointer, a [%d] conversion that does not fit
      an [int]) is an explicit [Fault] outcome, never a silent default.
    - External collaborators that only appear as calls (the box, bitmap-glyph
      and vector-glyph primitives) are recorded as a log of calls in program
      order: "no pixel written" is "no call logged". *)

From Stdlib Require Import ZArith String Ascii Bool Lia.
From stdpp Require Import base numbers list gmap.

Local Open Scope Z_scope.

(** ** Machine integers *)

Definition u8 (z : Z) : Z := z mod 256.
Definition u16 (z : Z) : Z := z mod 65536.
Definition u32 (z : Z) : Z := z mod 4294967296.
Definition usize (z : Z) : Z := z mod 18446744073709551616.

Definition INT_MIN : Z := -2147483648.
Definition INT_MAX : Z := 2147483647.
Definition in_int (z : Z) : bool := (INT_MIN <=? z) && (z <=? INT_MAX).

(** Conversion to [int] of a value that is first reduced to 32 bits. *)
Definition to_int (z : Z) : Z :=
  let m := u32 z in if m <=? INT_MAX then m else m - 4294967296.

(** ** Outcomes: a small error monad for undefined behaviour *)

Inductive fault : Type :=
| OOB_write (idx : Z)      (* store outside the allocated object *)
| OOB_read (idx : Z)       (* load past the memory behind the pointer *)
| Int_overflow (v : Z).    (* scanned number not representable as int *)

Inductive outcome (A : Type) : Type :=
| Done (a : A)
| Fault (f : fault).
Arguments Done {A} a.
Arguments Fault {A} f.

Global Instance outcome_ret : MRet outcome := fun A a => Done a.
Global Instance outcome_bind : MBind outcome := fun A B k m =>
  match m with
  | Done a => k a
  | Fault f => Fault f
  end.
Global Instance outcome_fmap : FMap outcome := fun A B g m =>
  match m with
  | Done a => Done (g a)
  | Fault f => Fault f
  end.


(** * The libretro frameserver *)

Module Libretro.

Definition MAX_PORTS : Z := 4.
Definition MAX_BUTTONS : Z := 12.

(** ** Audio accumulator ([retroctx.audbuf], [audbuf_nsamples], [audbuf_used])

    [audbuf] is the block returned by
    [malloc(audbuf_nsamples * sizeof(int16_t))]: a list with one entry per
    allocated sample.  A store at an index outside the list is a store
    outside the allocation. *)

Record audctx : Type := mk_audctx {
  audbuf : list Z;
  audbuf_nsamples : Z;
  audbuf_used : Z
}.

(** [audbuf[i] = v] *)
Definition audbuf_store (i v : Z) (buf : list Z) : outcome (list Z) :=
  if (0 <=? i) && (i <? Z.of_nat (length buf))
  then Done (<[Z.to_nat i := v]> buf)
  else Fault (OOB_write i).

(** [memcpy(&audbuf[i], data, n * sizeof(int16_t))], sample by sample *)
Fixpoint audbuf_memcpy (i : Z) (data : list Z) (buf : list Z)
  : outcome (list Z) :=
  match data with
  | [] => Done buf
  | v :: data' => buf' ← audbuf_store i v buf; audbuf_memcpy (i + 1) data' buf'
  end.

(** The setup code of [arcan_frameserver_libretro_run]: [spf] stands for
    [(unsigned) round(sample_rate / fps)]; every sample is preset to
    [0xaded] (as an [int16_t]). *)
Definition audbuf_setup (spf : Z) : audctx :=
  let n := u32 (spf * 2 + 4) in
  {| audbuf := replicate (Z.to_nat n) (0xaded - 65536);
     audbuf_nsamples := n;
     audbuf_used := 0 |}.

(** [size_t libretro_audcb(const int16_t* data, size_t nframes)];
    [data] holds the [2 * nframes] interleaved samples that are copied. *)
Definition libretro_audcb (data : list Z) (nframes : Z) (c : audctx)
  : outcome (Z * audctx) :=
  buf ← audbuf_memcpy (audbuf_used c)
          (take (Z.to_nat (usize (nframes * 2))) data) (audbuf c);
  let used := usize (audbuf_used c + usize (nframes * 2)) in
  let used := used mod u32 (audbuf_nsamples c + 1) in
  Done (nframes,
        {| audbuf := buf;
           audbuf_nsamples := audbuf_nsamples c;
           audbuf_used := used |}).

(** [void libretro_audscb(int16_t left, int16_t right)] *)
Definition libretro_audscb (left right : Z) (c : audctx) : outcome audctx :=
  let used := audbuf_used c in
  buf ← audbuf_store used left (audbuf c);
  let used := usize (used + 1) in
  buf ← audbuf_store used right buf;
  let used := usize (used + 1) in
  let used := used mod u32 (audbuf_nsamples c + 1) in
  Done {| audbuf := buf;
          audbuf_nsamples := audbuf_nsamples c;
          audbuf_used := used |}.

(** A producer call, and the run of a sequence of them. *)
Inductive aud_call : Type :=
| Push_batch (data : list Z) (nframes : Z)
| Push_sample (left right : Z).

Definition aud_step (c : audctx) (k : aud_call) : outcome audctx :=
  match k with
  | Push_batch data nframes => snd <$> libretro_audcb data nframes c
  | Push_sample l r => libretro_audscb l r c
  end.

Fixpoint aud_run (ks : list aud_call) (c : audctx) : outcome audctx :=
  match ks with
  | [] => Done c
  | k :: ks' => c' ← aud_step c k; aud_run ks' c'
  end.

(** ** Video publish callback *)

(** Modelled from the spec: [struct frameserver_shmpage]
    (arcan_frameserver_shmpage.h is missing), the fields that the publish
    paths touch; width and height are 16 bits wide. *)

Record shmpage : Type := mk_shmpage {
  w : Z;
  h : Z;
  resized : bool;
  vready : bool;
  aready : bool
}.

(** A store into the shared segment, in program order. *)
Inductive shm_store : Type :=
| Store_w (v : Z)
| Store_h (v : Z)
| Store_resized (b : bool)
| Store_px (idx : Z) (val : Z).   (* framebuffer word [idx] *)

Record vidctx : Type := mk_vidctx {
  skipframe : bool;
  shared : shmpage;
  framebuffer : gmap Z Z;
  stores : list shm_store
}.

Definition set_skipframe (b : bool) (c : vidctx) : vidctx :=
  {| skipframe := b; shared := shared c;
     framebuffer := framebuffer c; stores := stores c |}.

Definition shared_store (e : shm_store) (c : vidctx) : vidctx :=
  let p := shared c in
  let p' :=
    match e with
    | Store_w v => {| w := v; h := h p; resized := resized p;
                      vready := vready p; aready := aready p |}
    | Store_h v => {| w := w p; h := v; resized := resized p;
                      vready := vready p; aready := aready p |}
    | Store_resized b => {| w := w p; h := h p; resized := b;
                            vready := vready p; aready := aready p |}
    | Store_px _ _ => p
    end in
  let fb :=
    match e with
    | Store_px idx val => <[idx := val]> (framebuffer c)
    | _ => framebuffer c
    end in
  {| skipframe := skipframe c; shared := p';
     framebuffer := fb; stores := stores c ++ [e] |}.

(** RGB1555 to RGBA, the body of the inner loop. *)
Definition rgb555_to_rgba (val : Z) : Z :=
  let r := u8 (Z.shiftl (Z.shiftr (Z.land val 0x7c00) 10) 3) in
  let g := u8 (Z.shiftl (Z.shiftr (Z.land val 0x3e0) 5) 3) in
  let b := u8 (Z.shiftl (Z.land val 0x1f) 3) in
  u32 (Z.lor (Z.lor (Z.lor (Z.shiftl 0xff 24) (Z.shiftl b 16))
                    (Z.shiftl g 8)) r).

(** [for (x = 0; x < width; x++)]: [n] columns are left, [buf] is the index
    of the row start in [data], [dbuf] the next framebuffer word. *)
Fixpoint vid_cols (n : nat) (x : Z) (data : Z -> Z) (buf dbuf : Z)
  (c : vidctx) : Z * vidctx :=
  match n with
  | O => (dbuf, c)
  | S n' =>
    let val := data (buf + x) in
    let c := shared_store (Store_px dbuf (rgb555_to_rgba val)) c in
    vid_cols n' (x + 1) data buf (dbuf + 1) c
  end.

(** [for (y = 0; y < height; y++)] *)
Fixpoint vid_rows (n : nat) (width pitch : Z) (data : Z -> Z) (buf dbuf : Z)
  (c : vidctx) : Z * vidctx :=
  match n with
  | O => (dbuf, c)
  | S n' =>
    let '(dbuf, c) := vid_cols (Z.to_nat width) 0 data buf dbuf c in
    vid_rows n' width pitch data (buf + Z.shiftr pitch 1) dbuf c
  end.

(** [static void libretro_vidcb(const void* data, unsigned width,
    unsigned height, size_t pitch)]; [data] is read as an array of
    [uint16_t]. *)
Definition libretro_vidcb (data : Z -> Z) (width height pitch : Z)
  (c : vidctx) : vidctx :=
  if skipframe c then set_skipframe false c
  else
    let c :=
      if negb (width =? w (shared c)) || negb (height =? h (shared c))
      then
        let c := shared_store (Store_w (u16 width)) c in
        let c := shared_store (Store_h (u16 height)) c in
        shared_store (Store_resized true) c
      else c in
    snd (vid_rows (Z.to_nat height) width pitch data 0 0 c).

(** The stores into the framebuffer. *)
Definition is_px (e : shm_store) : Prop :=
  match e with
  | Store_px _ _ => True
  | _ => False
  end.

(** ** Label translation *)

(** Joypad identifiers of libretro.h. *)
Definition RETRO_DEVICE_ID_JOYPAD_B : Z := 0.
Definition RETRO_DEVICE_ID_JOYPAD_Y : Z := 1.
Definition RETRO_DEVICE_ID_JOYPAD_SELECT : Z := 2.
Definition RETRO_DEVICE_ID_JOYPAD_START : Z := 3.
Definition RETRO_DEVICE_ID_JOYPAD_UP : Z := 4.
Definition RETRO_DEVICE_ID_JOYPAD_DOWN : Z := 5.
Definition RETRO_DEVICE_ID_JOYPAD_LEFT : Z := 6.
Definition RETRO_DEVICE_ID_JOYPAD_RIGHT : Z := 7.
Definition RETRO_DEVICE_ID_JOYPAD_A : Z := 8.
Definition RETRO_DEVICE_ID_JOYPAD_X : Z := 9.
Definition RETRO_DEVICE_ID_JOYPAD_L : Z := 10.
Definition RETRO_DEVICE_ID_JOYPAD_R : Z := 11.

Definition remaptbl : list Z :=
  [ RETRO_DEVICE_ID_JOYPAD_A;
    RETRO_DEVICE_ID_JOYPAD_B;
    RETRO_DEVICE_ID_JOYPAD_X;
    RETRO_DEVICE_ID_JOYPAD_Y;
    RETRO_DEVICE_ID_JOYPAD_L;
    RETRO_DEVICE_ID_JOYPAD_R ].

(** [retroctx.inputmatr] *)
Record inputmatr : Type := mk_inputmatr {
  joypad : list (list bool);   (* [MAX_PORTS][MAX_BUTTONS] *)
  axis : list Z                (* [2] *)
}.

(** [joypad[port][button] = v]; an index outside either dimension is a
    store outside the array. *)
Definition joypad_store (port button : Z) (v : bool) (m : inputmatr)
  : outcome inputmatr :=
  if (0 <=? port) && (port <? MAX_PORTS) &&
     (0 <=? button) && (button <? MAX_BUTTONS)
  then Done {| joypad := alter (<[Z.to_nat button := v]>)
                               (Z.to_nat port) (joypad m);
               axis := axis m |}
  else Fault (OOB_write (port * MAX_BUTTONS + button)).

(** Modelled from the spec: [arcan_event] (arcan_event.h is missing), the
    fields that [ioev_ctxtbl] reads: the label, the payload kind and the
    pressed/released flag of the payload.  The payload is a union, so both
    views of the flag can be read. *)
Inductive idatatype : Type :=
| EVENT_IDATATYPE_DIGITAL
| EVENT_IDATATYPE_TRANSLATED
| EVENT_IDATATYPE_ANALOG.

Record arcan_event : Type := mk_event {
  label : string;
  datatype : idatatype;
  translated_active : bool;
  digital_active : bool
}.

(** *** The C library calls on strings *)

Definition ascii_code (c : ascii) : Z := Z.of_N (N_of_ascii c).

Definition isspace (c : ascii) : bool :=
  let n := ascii_code c in (n =? 32) || ((9 <=? n) && (n <=? 13)).

Definition isdigit (c : ascii) : bool :=
  let n := ascii_code c in (48 <=? n) && (n <=? 57).

(** Ordinary characters of a scanf format: each must equal the next input
    character. *)
Fixpoint scan_lit (lit s : string) : option string :=
  match lit with
  | EmptyString => Some s
  | String c lit' =>
    match s with
    | String d s' => if Ascii.eqb c d then scan_lit lit' s' else None
    | EmptyString => None
    end
  end.

Fixpoint skip_space (s : string) : string :=
  match s with
  | String c s' => if isspace c then skip_space s' else s
  | EmptyString => s
  end.

Fixpoint scan_digits (s : string) (acc : Z) : Z :=
  match s with
  | String c s' =>
    if isdigit c then scan_digits s' (acc * 10 + (ascii_code c - 48))
    else acc
  | EmptyString => acc
  end.

(** The [%d] directive: white space is skipped, then an optional sign and
    at least one decimal digit are consumed. *)
Definition scan_d (s : string) : option Z :=
  let s := skip_space s in
  let '(neg, s) :=
    match s with
    | String c s' =>
      if Ascii.eqb c "-" then (true, s')
      else if Ascii.eqb c "+" then (false, s')
      else (false, s)
    | EmptyString => (false, s)
    end in
  match s with
  | String c _ =>
    if isdigit c
    then let v := scan_digits s 0 in Some (if neg then - v else v)
    else None
  | EmptyString => None
  end.

(** [sscanf(s, lit "%d" ..., &v)] returns 1 exactly when [sscanf_d lit s] is
    [Some v]; what follows [%d] in the format cannot change the count. *)
Definition sscanf_d (lit s : string) : option Z :=
  s' ← scan_lit lit s; scan_d s'.

(** [strchr(s, c)]: the suffix of [s] that starts at the first [c]. *)
Fixpoint strchr (s : string) (c : ascii) : option string :=
  match s with
  | String d s' => if Ascii.eqb d c then Some s else strchr s' c
  | EmptyString => None
  end.

(** [p++] on a [char*] that points at a character of the string *)
Definition str_next (s : string) : string :=
  match s with
  | String _ s' => s'
  | EmptyString => EmptyString
  end.

(** [strcmp(a, b) == 0] *)
Definition strcmp_eq (a b : string) : bool := String.eqb a b.

(** The value left in an [int] by a successful [%d]. *)
Definition scanned_int (v : Z) : outcome Z :=
  if in_int v then Done v else Fault (Int_overflow v).

(** [static void ioev_ctxtbl(arcan_event* ioev)] *)
Definition ioev_ctxtbl (ioev : arcan_event) (m : inputmatr)
  : outcome inputmatr :=
  let button := -1 in
  let value :=
    match datatype ioev with
    | EVENT_IDATATYPE_TRANSLATED => translated_active ioev
    | _ => digital_active ioev
    end in
  match sscanf_d "PLAYER" (label ioev) with
  | None => Done m
  | Some ind =>
    ind ← scanned_int ind;
    if (ind >? 0) && (ind <? MAX_PORTS) then
      match strchr (label ioev) "_" with
      | None => Done m
      | Some subtype =>
        let subtype := str_next subtype in
        (* 1 == sscanf(subtype, "BUTTON%d", &button): stores on success *)
        '(scanned, button) ←
          match sscanf_d "BUTTON" subtype with
          | Some b => b ← scanned_int b; Done (true, b)
          | None => Done (false, button)
          end;
        button ←
          if scanned && (button >? 0) && (button <=? MAX_BUTTONS - 6) then
            let button := button - 1 in
            Done (if button >? Z.of_nat (length remaptbl) - 1 then -1
                  else remaptbl !!! Z.to_nat button)
          else
            axis_ok ←
              match sscanf_d "AXIS" subtype with
              | Some a =>
                a ← scanned_int a;
                (* sizeof(axis) / sizeof(axis[0]) is 2 *)
                Done ((a >? 0) && (a <=? 2))
              | None => Done false
              end;
            Done (
              if axis_ok : bool then button
              else if strcmp_eq subtype "UP" then RETRO_DEVICE_ID_JOYPAD_UP
              else if strcmp_eq subtype "DOWN"
                   then RETRO_DEVICE_ID_JOYPAD_DOWN
              else if strcmp_eq subtype "LEFT"
                   then RETRO_DEVICE_ID_JOYPAD_LEFT
              else if strcmp_eq subtype "RIGHT"
                   then RETRO_DEVICE_ID_JOYPAD_RIGHT
              else if strcmp_eq subtype "SELECT"
                   then RETRO_DEVICE_ID_JOYPAD_SELECT
              else if strcmp_eq subtype "START"
                   then RETRO_DEVICE_ID_JOYPAD_START
              else button);
        if button >=? 0 then joypad_store (ind - 1) button value m
        else Done m
      end
    else Done m
  end.

(** [value] as computed on entry of [ioev_ctxtbl] *)
Definition ioev_value (ioev : arcan_event) : bool :=
  match datatype ioev with
  | EVENT_IDATATYPE_TRANSLATED => translated_active ioev
  | _ => digital_active ioev
  end.

(** A segment at 320x240 with an empty store log, and a pressed digital
    event with a given label. *)
Definition vidctx_320x240 : vidctx :=
  {| skipframe := false;
     shared := {| w := 320; h := 240; resized := false;
                  vready := false; aready := false |};
     framebuffer := ∅;
     stores := [] |}.

Definition pressed (l : string) : arcan_event :=
  {| label := l; datatype := EVENT_IDATATYPE_DIGITAL;
     translated_active := false; digital_active := true |}.

(** The matrix as [retroctx = {0}] leaves it. *)
Definition inputmatr_zero : inputmatr :=
  {| joypad := replicate (Z.to_nat MAX_PORTS)
                         (replicate (Z.to_nat MAX_BUTTONS) false);
     axis := [0; 0] |}.

(** ** Reading the input matrix *)

(** Device classes of libretro.h. *)
Definition RETRO_DEVICE_JOYPAD : Z := 1.
Definition RETRO_DEVICE_MOUSE : Z := 2.
Definition RETRO_DEVICE_LIGHTGUN : Z := 4.

(** [joypad[port][button]] as an lvalue that exists. *)
Definition joypad_entry (port button : nat) (m : inputmatr) : option bool :=
  row ← joypad m !! port; row !! button.

(** The matrix has its declared dimensions. *)
Definition matrix_shape (m : inputmatr) : Prop :=
  length (joypad m) = Z.to_nat MAX_PORTS /\
  Forall (fun row => length row = Z.to_nat MAX_BUTTONS) (joypad m).

(** The two function-local [static bool] flags of [libretro_inputstate]. *)
Record warned : Type := mk_warned {
  warned_mouse : bool;
  warned_lightgun : bool
}.

(** [static int16_t libretro_inputstate(unsigned port, unsigned dev,
    unsigned ind, unsigned id)]; [None] is a failed [assert].  The matrix is
    indexed by [ind] and [id], [port] is not used. *)
Definition libretro_inputstate (port dev ind id : Z) (m : inputmatr)
  (wn : warned) : option (Z * warned) :=
  if negb (ind <? MAX_PORTS) then None
  else if negb (id <? MAX_BUTTONS) then None
  else if dev =? RETRO_DEVICE_JOYPAD then
    Some ((if default false (joypad_entry (Z.to_nat ind) (Z.to_nat id) m)
           then 1 else 0), wn)
  else if dev =? RETRO_DEVICE_MOUSE then
    Some (0, {| warned_mouse := true; warned_lightgun := warned_lightgun wn |})
  else if dev =? RETRO_DEVICE_LIGHTGUN then
    Some (0, {| warned_mouse := warned_mouse wn; warned_lightgun := true |})
  else Some (0, wn).


(** ** Draining the event queue *)



(** ** Flushing the audio accumulator *)

(** Modelled from the spec: the [abufused] field, 32 bits wide, and the
    audio region of [struct frameserver_shmpage]
    (arcan_frameserver_shmpage.h is missing), as the audio part of the main
    loop of [arcan_frameserver_libretro_run] leaves them: [abufused] in
    bytes and the samples copied to the audio region. *)
Record audio_out : Type := mk_audio_out {
  abufused : Z;
  abuf : list Z
}.

(** [shared->abufused = sizeof(int16_t) * audbuf_used; memcpy(...);
    audbuf_used = 0; shared->aready = true;]  The copy reads [abufused]
    bytes, two per sample, from the start of [audbuf]. *)
Definition audio_flush (c : audctx) (p : shmpage)
  : outcome (audctx * shmpage * audio_out) :=
  let used_bytes := u32 (2 * audbuf_used c) in
  let nsamp := used_bytes / 2 in
  if Z.of_nat (length (audbuf c)) <? nsamp
  then Fault (OOB_read (Z.of_nat (length (audbuf c))))
  else
    Done ({| audbuf := audbuf c;
             audbuf_nsamples := audbuf_nsamples c;
             audbuf_used := 0 |},
          {| w := w p; h := h p; resized := resized p;
             vready := vready p; aready := true |},
          {| abufused := used_bytes;
             abuf := take (Z.to_nat nsamp) (audbuf c) |}).

(** The accumulator is consistent with its allocation. *)
Definition aud_wf (c : audctx) : Prop :=
  audbuf_nsamples c = Z.of_nat (length (audbuf c)) /\
  audbuf_nsamples c < 4294967295 /\
  0 <= audbuf_used c <= audbuf_nsamples c.

(** The number of samples a producer call appends. *)
Definition aud_call_samples (k : aud_call) : Z :=
  match k with
  | Push_batch _ nframes => 2 * nframes
  | Push_sample _ _ => 2
  end.

(** A batch call whose [data] holds the frames it announces (their number
    of samples fits a [size_t]). *)
Definition aud_call_ok (k : aud_call) : Prop :=
  match k with
  | Push_batch data nframes =>
      0 <= nframes < 9223372036854775808 /\
      Z.of_nat (length data) = 2 * nframes
  | Push_sample _ _ => True
  end.

(** Interleaved stereo frames as the sample array of a batch call. *)
Definition interleave (ps : list (Z * Z)) : list Z :=
  flat_map (fun p => [fst p; snd p]) ps.

(** The number of samples that a sequence of producer calls appends. *)
Definition aud_total (ks : list aud_call) : Z :=
  foldr (fun k acc => aud_call_samples k + acc) 0 ks.

(** The samples that a producer call copies, in the order of the copy. *)
Definition aud_call_data (k : aud_call) : list Z :=
  match k with
  | Push_batch data nframes => take (Z.to_nat (2 * nframes)) data
  | Push_sample l r => [l; r]
  end.

(** One [libretro_audscb] call per stereo frame. *)
Definition pushes (ps : list (Z * Z)) : list aud_call :=
  map (fun p => Push_sample (fst p) (snd p)) ps.

(** [(int16_t) b] of a [bool]. *)
Definition bool_to_int16 (b : bool) : Z := if b then 1 else 0.

End Libretro.

(** * The packed cell raster decoder *)

Module Raster.

(** ** Wire format

    raster.h, arcan_shmif.h and arcan_tui.h are not among the sources; the
    constants and layouts below follow the wire description of the
    specification. *)

(** Modelled from the spec: [shmif_pixel] and [SHMIF_RGBA] (arcan_shmif.h is
    missing).  A pixel packs four 8-bit channels; it is kept as the
    quadruple. *)
Inductive shmif_pixel : Type :=
| SHMIF_RGBA (r g b a : Z).

(** Modelled from the spec: [raster_cell_sz] (raster.h is missing); a cell
    is 12 bytes. *)
Definition raster_cell_sz : Z := 12.

(** Modelled from the spec: [raster_line_sz] and
    [sizeof(struct tui_raster_line)] (raster.h is missing); a line record is
    three 16-bit fields without padding. *)
Definition raster_line_sz : Z := 6.

(** Modelled from the spec: [raster_hdr_sz] and
    [sizeof(struct tui_raster_header)] (raster.h is missing); the header is
    [flags:u8, lines:u16, cells:u16, data_sz:u32, cursor_state:u8,
    bgc[4]:u8] without padding. *)
Definition raster_hdr_sz : Z := 14.

(** Modelled from the spec: [RPACK_DFRAME] (raster.h is missing); bit 0 of
    the header flags selects dirty-frame mode. *)
Definition RPACK_DFRAME : Z := 1.

(** Modelled from the spec: the [CATTR_] bit positions (arcan_tui.h is
    missing), numbered in the order in which the attribute bits are
    listed. *)
Definition CATTR_CURSOR : Z := 0.
Definition CATTR_BOLD : Z := 1.
Definition CATTR_ITALIC : Z := 2.
Definition CATTR_UNDERLINE : Z := 3.
Definition CATTR_STRIKETHROUGH : Z := 4.
Definition CATTR_SKIP : Z := 5.

(** Modelled from the spec: [CURSOR_ACTIVE] (tui_int.h is missing), the
    value of the header's cursor state that stands for an active cursor. *)
Definition CURSOR_ACTIVE : Z := 1.

(** Style bits of arcan_ttf.h. *)
Definition TTF_STYLE_NORMAL : Z := 0.
Definition TTF_STYLE_BOLD : Z := 1.
Definition TTF_STYLE_ITALIC : Z := 2.

Record tui_raster_header : Type := mk_header {
  hdr_flags : Z;
  hdr_lines : Z;
  hdr_cells : Z;
  hdr_data_sz : Z;
  hdr_cursor_state : Z;
  hdr_bgc : list Z
}.

Record tui_raster_line : Type := mk_line {
  start_line : Z;
  offset : Z;
  ncells : Z
}.

Record cell : Type := mk_cell {
  fc : shmif_pixel;
  bc : shmif_pixel;
  ucs4 : Z;
  attr : Z
}.

(** *** Reading the input buffer

    The input is the memory behind [buf], one list entry per readable byte;
    [buf_sz] is a separate argument, as in the C signature. *)

Definition byte_at (bs : list Z) (i : nat) : Z := u8 (bs !!! i).

Definition le16_at (bs : list Z) (i : nat) : Z :=
  Z.lor (byte_at bs i) (Z.shiftl (byte_at bs (i + 1)) 8).

(** [memcpy(&dst, buf, n)]: the first [n] bytes behind [buf] *)
Definition memcpy_from (buf : list Z) (n : Z) : outcome (list Z) :=
  if Z.of_nat (length buf) <? n
  then Fault (OOB_read (Z.of_nat (length buf)))
  else Done (take (Z.to_nat n) buf).

(** [void unpack_u32(uint32_t* dst, uint8_t* inbuf)] *)
Definition unpack_u32 (inbuf : list Z) : Z :=
  u32 (Z.lor (Z.lor (Z.lor (Z.shiftl (byte_at inbuf 0) 0)
                           (Z.shiftl (byte_at inbuf 1) 8))
                    (Z.shiftl (byte_at inbuf 2) 16))
             (Z.shiftl (byte_at inbuf 3) 24)).

(** Modelled from the spec: the layout of [struct tui_raster_header]
    (raster.h is missing), little-endian fields in the listed order. *)
Definition header_of_bytes (bs : list Z) : tui_raster_header :=
  {| hdr_flags := byte_at bs 0;
     hdr_lines := le16_at bs 1;
     hdr_cells := le16_at bs 3;
     hdr_data_sz := unpack_u32 (drop 5 bs);
     hdr_cursor_state := byte_at bs 9;
     hdr_bgc := [byte_at bs 10; byte_at bs 11; byte_at bs 12; byte_at bs 13]
  |}.

(** Modelled from the spec: the layout of [struct tui_raster_line]
    (raster.h is missing). *)
Definition line_of_bytes (bs : list Z) : tui_raster_line :=
  {| start_line := le16_at bs 0;
     offset := le16_at bs 2;
     ncells := le16_at bs 4 |}.

(** [static void unpack_cell(uint8_t unpack[static 12], struct cell* dst,
    uint8_t alpha)] *)
Definition unpack_cell (unpack : list Z) (alpha : Z) : cell :=
  {| fc := SHMIF_RGBA (byte_at unpack 0) (byte_at unpack 1)
                      (byte_at unpack 2) 0xff;
     bc := SHMIF_RGBA (byte_at unpack 3) (byte_at unpack 4)
                      (byte_at unpack 5) alpha;
     attr := byte_at unpack 6;
     ucs4 := unpack_u32 (drop 8 unpack) |}.

(** ** Decoder state *)

Record tui_font : Type := mk_font {
  vector : bool;
  truetype : bool     (* the [truetype] pointer is not NULL *)
}.

Record tui_raster_context : Type := mk_ctx {
  fonts0 : tui_font;
  fonts1 : tui_font;
  last_style : Z;
  cursor_state : Z;
  cc : shmif_pixel;
  cell_w : Z;
  cell_h : Z
}.

(** The calls into the drawing primitives, with their arguments. *)
Inductive draw_call : Type :=
| Call_draw_box_px (pitch max_w max_h x y w h : Z) (col : shmif_pixel)
| Call_tui_pixelfont_draw (pitch cp x y : Z) (fg bg : shmif_pixel)
    (maxx maxy : Z)
| Call_TTF_SetFontStyle (font : Z) (style : Z)
| Call_TTF_RenderUNICODEglyph (ofs w h pitch nfonts cp : Z)
    (fg bg : shmif_pixel) (style : Z).

(** What [raster_tobuf] can write: the four rectangle outputs, the context
    and the destination pixels (as the log of drawing calls). *)
Record rstate : Type := mk_rstate {
  x1 : Z;
  y1 : Z;
  x2 : Z;
  y2 : Z;
  ctx : tui_raster_context;
  vidp : list draw_call
}.

Definition set_x1 (v : Z) (s : rstate) : rstate :=
  {| x1 := v; y1 := y1 s; x2 := x2 s; y2 := y2 s;
     ctx := ctx s; vidp := vidp s |}.
Definition set_y1 (v : Z) (s : rstate) : rstate :=
  {| x1 := x1 s; y1 := v; x2 := x2 s; y2 := y2 s;
     ctx := ctx s; vidp := vidp s |}.
Definition set_x2 (v : Z) (s : rstate) : rstate :=
  {| x1 := x1 s; y1 := y1 s; x2 := v; y2 := y2 s;
     ctx := ctx s; vidp := vidp s |}.
Definition set_y2 (v : Z) (s : rstate) : rstate :=
  {| x1 := x1 s; y1 := y1 s; x2 := x2 s; y2 := v;
     ctx := ctx s; vidp := vidp s |}.
Definition set_ctx (c : tui_raster_context) (s : rstate) : rstate :=
  {| x1 := x1 s; y1 := y1 s; x2 := x2 s; y2 := y2 s;
     ctx := c; vidp := vidp s |}.
Definition emit (d : draw_call) (s : rstate) : rstate :=
  {| x1 := x1 s; y1 := y1 s; x2 := x2 s; y2 := y2 s;
     ctx := ctx s; vidp := vidp s ++ [d] |}.

Definition set_cursor_state (v : Z) (c : tui_raster_context)
  : tui_raster_context :=
  {| fonts0 := fonts0 c; fonts1 := fonts1 c; last_style := last_style c;
     cursor_state := v; cc := cc c; cell_w := cell_w c; cell_h := cell_h c |}.
Definition set_last_style (v : Z) (c : tui_raster_context)
  : tui_raster_context :=
  {| fonts0 := fonts0 c; fonts1 := fonts1 c; last_style := v;
     cursor_state := cursor_state c; cc := cc c;
     cell_w := cell_w c; cell_h := cell_h c |}.

Definition has_attr (c : cell) (bit : Z) : bool :=
  negb (Z.land (attr c) (Z.shiftl 1 bit) =? 0).

(** ** Drawing one cell *)

(** [(int)(h * 0.05)]: the double product truncates to the integer quotient
    by 20 for every height that fits an [int]. *)
Definition scale_005 (h : Z) : Z := h / 20.

(** [static void linehint(...)] *)
Definition linehint (cl : cell) (pitch x y maxx maxy : Z)
  (strikethrough underline : bool) (s : rstate) : rstate :=
  let c := ctx s in
  let s :=
    if underline then
      let n_lines := Z.lor (scale_005 (cell_h c)) 1 in
      emit (Call_draw_box_px pitch maxx maxy
              x (usize (y + cell_h c - n_lines)) (cell_w c) n_lines (fc cl)) s
    else s in
  if strikethrough then
    let n_lines := Z.lor (scale_005 (cell_h c)) 1 in
    emit (Call_draw_box_px pitch maxx maxy
            x (usize (y + Z.shiftr (cell_h c) 1 - Z.shiftr n_lines 1))
            (cell_w c) n_lines (fc cl)) s
  else s.

Definition line_marks (cl : cell) (pitch x y maxx maxy : Z) (s : rstate)
  : rstate :=
  if negb (ucs4 cl =? 0) &&
     negb (Z.land (attr cl)
             (Z.lor (Z.shiftl 1 CATTR_STRIKETHROUGH)
                    (Z.shiftl 1 CATTR_UNDERLINE)) =? 0)
  then linehint cl pitch x y maxx maxy
         (has_attr cl CATTR_STRIKETHROUGH) (has_attr cl CATTR_UNDERLINE) s
  else s.

(** [static size_t drawglyph(...)]: the returned advance and the state *)
Definition drawglyph (cl : cell) (pitch x y maxx maxy : Z) (s : rstate)
  : Z * rstate :=
  let c := ctx s in
  if negb (vector (fonts0 c)) then
    let bc' :=
      if has_attr cl CATTR_CURSOR && (cursor_state c =? CURSOR_ACTIVE)
      then cc c else bc cl in
    let cl := {| fc := fc cl; bc := bc'; ucs4 := ucs4 cl; attr := attr cl |} in
    let s := emit (Call_tui_pixelfont_draw pitch (ucs4 cl) x y
                     (fc cl) (bc cl) maxx maxy) s in
    let s := line_marks cl pitch x y maxx maxy s in
    (cell_w c, s)
  else
    let two := vector (fonts1 c) && truetype (fonts1 c) in
    let nfonts := if two then 2 else 1 in
    let bc' :=
      if has_attr cl CATTR_CURSOR && (cursor_state c =? CURSOR_ACTIVE)
      then cc c else bc cl in
    let s := emit (Call_draw_box_px pitch maxx maxy x y
                     (cell_w c) (cell_h c) bc') s in
    if ucs4 cl =? 0 then (cell_w c, s)
    else
      let prem := TTF_STYLE_NORMAL in
      let prem := Z.lor prem (TTF_STYLE_ITALIC *
                                (if has_attr cl CATTR_ITALIC then 1 else 0)) in
      let prem := Z.lor prem (TTF_STYLE_BOLD *
                                (if has_attr cl CATTR_BOLD then 1 else 0)) in
      let s :=
        if negb (prem =? last_style c) then
          let s := set_ctx (set_last_style prem c) s in
          let s := emit (Call_TTF_SetFontStyle 0 prem) s in
          if two then emit (Call_TTF_SetFontStyle 1 prem) s else s
        else s in
      let s := emit (Call_TTF_RenderUNICODEglyph (usize (y * pitch + x))
                       (cell_w c) (cell_h c) pitch nfonts (ucs4 cl)
                       (fc cl) bc' (last_style (ctx s))) s in
      let s := line_marks cl pitch x y maxx maxy s in
      (cell_w c, s).

(** ** The decoder loops *)

Section Decoder.

(** Fixed during one call: the destination geometry, the header's alpha and
    background color, and the mode ([update] is set for a dirty frame). *)
Variables (pitch max_w max_h : Z).
Variable (alpha : Z).
Variable (bgc : shmif_pixel).
Variable (update : bool).

(** The inner loop
    [for (size_t i = line.offset; line.ncells && buf_sz >= raster_cell_sz;
    i++)], by recursion on [line.ncells].  The result is the input cursor
    ([buf], [buf_sz]) and the state at loop exit. *)
Fixpoint cells_loop (ncells : nat) (draw_y : Z) (buf : list Z) (buf_sz : Z)
  (draw_x : Z) (s : rstate) : outcome (list Z * Z * rstate) :=
  match ncells with
  | O => Done (buf, buf_sz, s)
  | S ncells' =>
    if buf_sz <? raster_cell_sz then Done (buf, buf_sz, s)
    else
      bytes ← memcpy_from buf raster_cell_sz;
      let cl := unpack_cell bytes alpha in
      let buf := drop (Z.to_nat raster_cell_sz) buf in
      let buf_sz := buf_sz - raster_cell_sz in
      let c := ctx s in
      if has_attr cl CATTR_SKIP then
        cells_loop ncells' draw_y buf buf_sz (usize (draw_x + cell_w c)) s
      else if (usize (draw_x + cell_w c) <? max_w) &&
              (usize (draw_y + cell_h c) <? max_h) then
        let '(adv, s) := drawglyph cl pitch (to_int draw_x) (to_int draw_y)
                           max_w max_h s in
        let draw_x := usize (draw_x + adv) in
        let next_x := u16 (draw_x + cell_w c) in
        let s :=
          if (x2 s <? next_x) && (next_x <=? max_w) then set_x2 next_x s
          else s in
        cells_loop ncells' draw_y buf buf_sz draw_x s
      else
        cells_loop ncells' draw_y buf buf_sz draw_x s
  end.

(** What follows the line loop. *)
Definition tobuf_finish (last_line : Z) (s : rstate) : Z * rstate :=
  let s :=
    if update then set_y2 (u16 (usize ((last_line + 1) * cell_h (ctx s)))) s
    else s in
  (1, s).

(** The body of the line loop from the unpacked line record up to the cell
    loop: the new [last_line] and [cur_y], the [draw_y] and [draw_x] of the
    line, and the state. *)
Definition line_head (line : tui_raster_line) (cur_y last_line : Z)
  (s : rstate) : Z * Z * Z * Z * rstate :=
  let c := ctx s in
  let last_line :=
    if start_line line >? last_line then start_line line
    else last_line in
  let s :=
    if update && (cur_y =? -1)
    then set_y1 (u16 (usize (start_line line * cell_h c))) s
    else s in
  let '(s, cur_y) :=
    if negb (cur_y =? start_line line) then
      let s :=
        if negb update && negb (cur_y =? -1) then
          emit (Call_draw_box_px pitch max_w max_h
                  0 (usize (cur_y * cell_h c))
                  (cell_w c)
                  (usize (cell_h c * (start_line line - cur_y))) bgc) s
        else s in
      (s, start_line line)
    else (s, cur_y) in
  let draw_y := usize (cur_y * cell_h c) in
  let s := if draw_y <? y1 s then set_y1 (u16 draw_y) s else s in
  let draw_x := usize (offset line * cell_w c) in
  let s := if draw_x <? x1 s then set_x1 (u16 draw_x) s else s in
  (last_line, cur_y, draw_y, draw_x, s).

(** The outer loop [for (size_t i = 0; i < hdr.lines && buf_sz; i++)], by
    recursion on the number of lines left.  The result is the returned
    [int] and the state. *)
Fixpoint lines_loop (lines : nat) (buf : list Z) (buf_sz : Z)
  (cur_y last_line : Z) (s : rstate) : outcome (Z * rstate) :=
  match lines with
  | O => Done (tobuf_finish last_line s)
  | S lines' =>
    if buf_sz =? 0 then Done (tobuf_finish last_line s)
    else if buf_sz <? raster_line_sz then Done (-1, s)
    else
      bytes ← memcpy_from buf raster_line_sz;
      let line := line_of_bytes bytes in
      let buf := drop (Z.to_nat raster_line_sz) buf in
      let '(last_line, cur_y, draw_y, draw_x, s) :=
        line_head line cur_y last_line s in
      '(buf, buf_sz, s) ←
        cells_loop (Z.to_nat (ncells line)) draw_y buf buf_sz draw_x s;
      lines_loop lines' buf buf_sz (cur_y + 1) last_line s
  end.

End Decoder.

(** [static int raster_tobuf(struct tui_raster_context* ctx,
    shmif_pixel* vidp, size_t pitch, size_t max_w, size_t max_h,
    uint16_t* x1, uint16_t* y1, uint16_t* x2, uint16_t* y2,
    uint8_t* buf, size_t buf_sz)].

    [s] holds the context, the destination and the four outputs on entry;
    the result is the returned [int] with the state on return. *)
Definition raster_tobuf (pitch max_w max_h : Z) (buf : list Z) (buf_sz : Z)
  (s : rstate) : outcome (Z * rstate) :=
  if (buf_sz =? 0) || (buf_sz <? raster_hdr_sz) then Done (-1, s)
  else
    bytes ← memcpy_from buf raster_hdr_sz;
    let hdr := header_of_bytes bytes in
    let hdr_ver_sz := hdr_lines hdr * raster_line_sz +
                      hdr_cells hdr * raster_cell_sz + raster_hdr_sz in
    if (hdr_data_sz hdr >? buf_sz) || negb (hdr_data_sz hdr =? hdr_ver_sz)
    then Done (-1, s)
    else
      let buf_sz := buf_sz - raster_hdr_sz in
      let buf := drop (Z.to_nat raster_hdr_sz) buf in
      let bgc := SHMIF_RGBA (hdr_bgc hdr !!! 0%nat) (hdr_bgc hdr !!! 1%nat)
                            (hdr_bgc hdr !!! 2%nat) (hdr_bgc hdr !!! 3%nat) in
      let update := negb (Z.land (hdr_flags hdr) RPACK_DFRAME =? 0) in
      let s :=
        if update then
          set_y2 0 (set_x2 0 (set_y1 (u16 max_h) (set_x1 (u16 max_w) s)))
        else
          set_y2 (u16 max_h) (set_x2 (u16 max_w) (set_y1 0 (set_x1 0 s))) in
      let s := set_ctx (set_cursor_state (hdr_cursor_state hdr) (ctx s)) s in
      lines_loop pitch max_w max_h (hdr_bgc hdr !!! 3%nat) bgc update
        (Z.to_nat (hdr_lines hdr)) buf buf_sz (-1) 0 s.

(** ** Building packed buffers

    The encoder side is not among the sources; these helpers lay out a
    header, a line record and a cell in the wire format read above, to
    write down concrete inputs. *)

Definition le16_bytes (v : Z) : list Z := [u8 v; u8 (Z.shiftr v 8)].
Definition le32_bytes (v : Z) : list Z :=
  [u8 v; u8 (Z.shiftr v 8); u8 (Z.shiftr v 16); u8 (Z.shiftr v 24)].

Definition header_bytes (h : tui_raster_header) : list Z :=
  [u8 (hdr_flags h)] ++ le16_bytes (hdr_lines h) ++ le16_bytes (hdr_cells h)
  ++ le32_bytes (hdr_data_sz h) ++ [u8 (hdr_cursor_state h)]
  ++ take 4 (hdr_bgc h ++ [0; 0; 0; 0]).

Definition line_bytes (l : tui_raster_line) : list Z :=
  le16_bytes (start_line l) ++ le16_bytes (offset l) ++ le16_bytes (ncells l).

(** A cell with the given colors, attribute byte and code point. *)
Definition cell_bytes (fr fg fb br bg bb attrs cp : Z) : list Z :=
  [u8 fr; u8 fg; u8 fb; u8 br; u8 bg; u8 bb; u8 attrs; 0] ++ le32_bytes cp.


(** The size check of the header: [buf_sz] covers the header and the
    declared [data_sz], and [data_sz] is the sum of the declared parts. *)
Definition size_check (hdr : tui_raster_header) (buf_sz : Z) : Prop :=
  raster_hdr_sz <= buf_sz /\
  hdr_data_sz hdr <= buf_sz /\
  hdr_data_sz hdr = hdr_lines hdr * raster_line_sz +
                    hdr_cells hdr * raster_cell_sz + raster_hdr_sz.

(** The rectangle that covers the whole destination. *)
Definition whole_frame (max_w max_h : Z) (s : rstate) : Prop :=
  x1 s = 0 /\ y1 s = 0 /\ x2 s = max_w /\ y2 s = max_h.

(** ** Concrete inputs *)

(** A context with 8x16 cells, the cursor color and style of
    [tui_raster_setup] and a bitmap font in slot 0; a state whose four
    outputs hold 7 on entry. *)
Definition ctx_8x16 : tui_raster_context :=
  {| fonts0 := {| vector := false; truetype := false |};
     fonts1 := {| vector := false; truetype := false |};
     last_style := -1;
     cursor_state := 0;
     cc := SHMIF_RGBA 0x00 0xaa 0x00 0xff;
     cell_w := 8;
     cell_h := 16 |}.

Definition state_8x16 : rstate :=
  {| x1 := 7; y1 := 7; x2 := 7; y2 := 7; ctx := ctx_8x16; vidp := [] |}.

(** A cell 'A' without attributes. *)
Definition cell_A : list Z := cell_bytes 10 20 30 40 50 60 0 65.

(** A cell with only the SKIP bit set. *)
Definition cell_skip : list Z :=
  cell_bytes 10 20 30 40 50 60 (Z.shiftl 1 CATTR_SKIP) 65.

(** Dirty frame, one line at row 5 starting at column 3, one cell. *)
Definition buf_one_cell_5_3 : list Z :=
  header_bytes {| hdr_flags := RPACK_DFRAME; hdr_lines := 1; hdr_cells := 1;
                  hdr_data_sz := 32; hdr_cursor_state := 0;
                  hdr_bgc := [1; 2; 3; 255] |}
  ++ line_bytes {| start_line := 5; offset := 3; ncells := 1 |}
  ++ cell_A.

(** Full frame, a line at row 0 and a line at row 2 with one cell each:
    row 1 lies between two consecutive declared lines. *)
Definition buf_gap_row : list Z :=
  header_bytes {| hdr_flags := 0; hdr_lines := 2; hdr_cells := 2;
                  hdr_data_sz := 50; hdr_cursor_state := 0;
                  hdr_bgc := [1; 2; 3; 255] |}
  ++ line_bytes {| start_line := 0; offset := 0; ncells := 1 |}
  ++ cell_A
  ++ line_bytes {| start_line := 2; offset := 0; ncells := 1 |}
  ++ cell_A.

(** Dirty frame, one cell at row 0, column 79: with 8-pixel cells and a
    destination 644 pixels wide the cell fits (632 + 8 < 644). *)
Definition buf_one_cell_0_79 : list Z :=
  header_bytes {| hdr_flags := RPACK_DFRAME; hdr_lines := 1; hdr_cells := 1;
                  hdr_data_sz := 32; hdr_cursor_state := 0;
                  hdr_bgc := [1; 2; 3; 255] |}
  ++ line_bytes {| start_line := 0; offset := 79; ncells := 1 |}
  ++ cell_A.

(** Dirty frame, one line at row 0 with a SKIP cell followed by a plain
    cell. *)
Definition buf_skip_then_A : list Z :=
  header_bytes {| hdr_flags := RPACK_DFRAME; hdr_lines := 1; hdr_cells := 2;
                  hdr_data_sz := 44; hdr_cursor_state := 0;
                  hdr_bgc := [1; 2; 3; 255] |}
  ++ line_bytes {| start_line := 0; offset := 0; ncells := 2 |}
  ++ cell_skip ++ cell_A.

(** Dirty frame, one cell at row 0, column 80: with 8-pixel cells its
    right edge, 648, lies beyond a destination 640 pixels wide. *)
Definition buf_one_cell_0_80 : list Z :=
  header_bytes {| hdr_flags := RPACK_DFRAME; hdr_lines := 1; hdr_cells := 1;
                  hdr_data_sz := 32; hdr_cursor_state := 0;
                  hdr_bgc := [1; 2; 3; 255] |}
  ++ line_bytes {| start_line := 0; offset := 80; ncells := 1 |}
  ++ cell_A.


(** ** The public entry point *)

(** [int tui_raster_render(struct tui_raster_context* ctx, struct
    arcan_shmif_cont* dst, uint8_t* buf, size_t buf_sz)] with a context and
    a destination that are not NULL; [fonts0_set] tells whether
    [ctx->fonts[0]] is set, [pitch], [w] and [h] are the fields of [dst].
    [x1 .. y2] of the state stand for the four locals, which are not
    initialised.  The third component of the result is the rectangle passed
    to [arcan_shmif_dirty], when that call is reached. *)
Definition tui_raster_render (fonts0_set : bool) (pitch w h : Z)
  (buf : list Z) (buf_sz : Z) (s : rstate)
  : outcome (Z * rstate * option (Z * Z * Z * Z)) :=
  if negb fonts0_set || (buf_sz <? raster_hdr_sz) then Done (-1, s, None)
  else
    '(r, s) ← raster_tobuf pitch w h buf buf_sz s;
    if r =? -1 then Done (-1, s, None)
    else
      let x2' := if x2 s >? w then u16 w else x2 s in
      Done (1, s, Some (x1 s, y1 s, x2', y2 s)).

(** ** Predicates on contexts and drawing calls *)

(** The part of the context that a decode leaves alone: fonts, cursor
    color and cell size, and the style cache when slot 0 holds a bitmap
    font. *)
Definition same_setup (c c' : tui_raster_context) : Prop :=
  fonts0 c' = fonts0 c /\ fonts1 c' = fonts1 c /\ cc c' = cc c /\
  cell_w c' = cell_w c /\ cell_h c' = cell_h c /\
  (vector (fonts0 c) = false -> last_style c' = last_style c).

(** A glyph call whose cell lies inside the destination: the bitmap-font
    call by the position it is given, the TrueType call by the offset into
    the destination it is given. *)
Definition glyph_inside (cw ch max_w max_h : Z) (d : draw_call) : Prop :=
  match d with
  | Call_tui_pixelfont_draw _ _ x y _ _ _ _ =>
      0 <= x /\ x + cw < max_w /\ 0 <= y /\ y + ch < max_h
  | Call_TTF_RenderUNICODEglyph ofs w h pitch _ _ _ _ _ =>
      w = cw /\ h = ch /\
      exists x y, ofs = y * pitch + x /\
        0 <= x /\ x + cw < max_w /\ 0 <= y /\ y + ch < max_h
  | _ => True
  end.

(** [after] is [before] followed by calls that all satisfy [P]. *)
Definition appended (P : draw_call -> Prop) (before after : list draw_call)
  : Prop :=
  exists calls, after = before ++ calls /\ Forall P calls.

(** A drawing call at or below and right of the corner ([a], [b]): boxes
    and bitmap-font glyphs by the position they are given, a TrueType glyph
    by the offset it is given; setting a font style draws nothing. *)
Definition call_from (a b : Z) (d : draw_call) : Prop :=
  match d with
  | Call_draw_box_px _ _ _ x y _ _ _ => a <= x /\ b <= y
  | Call_tui_pixelfont_draw _ _ x y _ _ _ _ => a <= x /\ b <= y
  | Call_TTF_RenderUNICODEglyph ofs _ _ pitch _ _ _ _ _ =>
      exists x y, ofs = y * pitch + x /\ a <= x /\ b <= y
  | Call_TTF_SetFontStyle _ _ => True
  end.

(** A box of width [cw] at column [x] that lies inside the rows
    [y .. y + ch - 1] of a cell. *)
Definition bar_inside (x y cw ch : Z) (d : draw_call) : Prop :=
  match d with
  | Call_draw_box_px _ _ _ bx by_ bw bh _ =>
      bx = x /\ bw = cw /\ 0 < bh /\ y <= by_ /\ by_ + bh <= y + ch
  | _ => False
  end.

(** The style of the first font after a sequence of calls, [cur] being its
    style before. *)
Fixpoint style_after (cur : Z) (l : list draw_call) : Z :=
  match l with
  | [] => cur
  | Call_TTF_SetFontStyle 0 style :: l' => style_after style l'
  | _ :: l' => style_after cur l'
  end.

(** A sequence of calls in which the style of the first font is only set to
    a style that differs from its current one, and every glyph is rendered
    with the current style; [cur] is the style before the first call. *)
Fixpoint style_trace (cur : Z) (l : list draw_call) : Prop :=
  match l with
  | [] => True
  | Call_TTF_SetFontStyle 0 style :: l' => style <> cur /\ style_trace style l'
  | Call_TTF_RenderUNICODEglyph _ _ _ _ _ _ _ _ style :: l' =>
      style = cur /\ style_trace cur l'
  | _ :: l' => style_trace cur l'
  end.

(** The style cache of the context agrees with the calls made since the
    log was [v0] and the cache held [ls0]. *)
Definition style_cache (ls0 : Z) (v0 : list draw_call) (s : rstate) : Prop :=
  exists calls, vidp s = v0 ++ calls /\
    style_trace ls0 calls /\
    last_style (ctx s) = style_after ls0 calls.

(** A header without lines, in dirty-frame mode, with cursor state 1. *)
Definition buf_no_lines : list Z :=
  header_bytes {| hdr_flags := RPACK_DFRAME; hdr_lines := 0; hdr_cells := 0;
                  hdr_data_sz := 14; hdr_cursor_state := 1;
                  hdr_bgc := [1; 2; 3; 255] |}.

(** An underlined, struck-through cell 'A'. *)
Definition cell_marked : cell :=
  {| fc := SHMIF_RGBA 10 20 30 255; bc := SHMIF_RGBA 40 50 60 255;
     ucs4 := 65;
     attr := Z.lor (Z.shiftl 1 CATTR_UNDERLINE)
                   (Z.shiftl 1 CATTR_STRIKETHROUGH) |}.

(** A context with 8x16 cells and one TrueType font, as
    [tui_raster_setfont] leaves the style cache; two bold cells 'A' on one
    line of a dirty frame. *)
Definition state_vector_8x16 : rstate :=
  {| x1 := 0; y1 := 0; x2 := 0; y2 := 0;
     ctx := {| fonts0 := {| vector := true; truetype := true |};
               fonts1 := {| vector := false; truetype := false |};
               last_style := -1;
               cursor_state := 0;
               cc := SHMIF_RGBA 0x00 0xaa 0x00 0xff;
               cell_w := 8;
               cell_h := 16 |};
     vidp := [] |}.

Definition buf_two_bold : list Z :=
  header_bytes {| hdr_flags := RPACK_DFRAME; hdr_lines := 1; hdr_cells := 2;
                  hdr_data_sz := 44; hdr_cursor_state := 0;
                  hdr_bgc := [1; 2; 3; 255] |}
  ++ line_bytes {| start_line := 0; offset := 0; ncells := 2 |}
  ++ cell_bytes 10 20 30 40 50 60 (Z.shiftl 1 CATTR_BOLD) 65
  ++ cell_bytes 10 20 30 40 50 60 (Z.shiftl 1 CATTR_BOLD) 65.

End Raster.

(** * Outcomes *)

(** A bind that returns went through a first part that returned. *)
Lemma bind_done_inv {A B} (m : outcome A) (k : A -> outcome B) b :
  m ≫= k = Done b -> exists a, m = Done a /\ k a = Done b.
Proof. destruct m as [a|f]; simpl; [eauto | discriminate]. Qed.

(** * Properties of the libretro frameserver *)

Module LibretroSpec.
Import Libretro.

(** ** Audio accumulator *)

Lemma audbuf_store_inside i v (buf : list Z) :
  0 <= i < Z.of_nat (length buf) ->
  audbuf_store i v buf = Done (<[Z.to_nat i := v]> buf).
Proof.
  intros Hi. unfold audbuf_store.
  replace (0 <=? i) with true by (symmetry; apply Z.leb_le; lia).
  replace (i <? Z.of_nat (length buf)) with true
    by (symmetry; apply Z.ltb_lt; lia).
  reflexivity.
Qed.

Lemma audbuf_store_outside i v (buf : list Z) :
  Z.of_nat (length buf) <= i ->
  audbuf_store i v buf = Fault (OOB_write i).
Proof.
  intros Hi. unfold audbuf_store.
  replace (i <? Z.of_nat (length buf)) with false
    by (symmetry; apply Z.ltb_ge; lia).
  now rewrite andb_false_r.
Qed.

(** The cursor is reduced modulo [audbuf_nsamples + 1]: after a call that
    returns it lies in [0 .. audbuf_nsamples], the upper end included. *)
Lemma aud_step_used_range c k c' :
  0 <= audbuf_nsamples c < 4294967295 ->
  aud_step c k = Done c' ->
  audbuf_nsamples c' = audbuf_nsamples c /\
  0 <= audbuf_used c' <= audbuf_nsamples c'.
Proof.
  intros Hn Hstep.
  assert (Hm : u32 (audbuf_nsamples c + 1) = audbuf_nsamples c + 1)
    by (unfold u32; apply Z.mod_small; lia).
  destruct k as [data nframes | l r]; simpl in Hstep.
  - unfold libretro_audcb in Hstep.
    destruct (audbuf_memcpy _ _ _) as [buf|f]; simpl in Hstep; [|discriminate].
    injection Hstep as <-. simpl. rewrite Hm. split; [reflexivity|].
    destruct (Z.mod_pos_bound
      (usize (audbuf_used c + usize (nframes * 2)))
      (audbuf_nsamples c + 1)); lia.
  - unfold libretro_audscb in Hstep.
    apply bind_done_inv in Hstep as (buf1 & _ & Hstep).
    apply bind_done_inv in Hstep as (buf2 & _ & Hstep).
    injection Hstep as <-. simpl. rewrite Hm. split; [reflexivity|].
    destruct (Z.mod_pos_bound
      (usize (usize (audbuf_used c + 1) + 1)) (audbuf_nsamples c + 1)); lia.
Qed.

(** With the cursor equal to [audbuf_nsamples], the next sample is stored
    one past the allocation. *)
Lemma audscb_overruns_at_capacity l r c :
  audbuf_nsamples c = Z.of_nat (length (audbuf c)) ->
  audbuf_used c = audbuf_nsamples c ->
  libretro_audscb l r c = Fault (OOB_write (audbuf_nsamples c)).
Proof.
  intros Hlen Hused. unfold libretro_audscb.
  rewrite audbuf_store_outside by lia. rewrite Hused. reflexivity.
Qed.

Lemma aud_run_app ks1 : forall ks2 c,
  aud_run (ks1 ++ ks2) c = c' ← aud_run ks1 c; aud_run ks2 c'.
Proof.
  induction ks1 as [|k ks1 IH]; intros ks2 c; simpl; [reflexivity|].
  destruct (aud_step c k) as [c1|f]; simpl; [apply IH | reflexivity].
Qed.

(** A sample pair that fits the allocation advances the cursor by two. *)
Lemma audscb_inside l r c :
  audbuf_nsamples c = Z.of_nat (length (audbuf c)) ->
  audbuf_nsamples c < 4294967295 ->
  0 <= audbuf_used c ->
  audbuf_used c + 2 <= audbuf_nsamples c ->
  exists c', libretro_audscb l r c = Done c' /\
             audbuf_used c' = audbuf_used c + 2 /\
             audbuf_nsamples c' = audbuf_nsamples c /\
             length (audbuf c') = length (audbuf c).
Proof.
  intros Hlen Hn H0 Hused. unfold libretro_audscb.
  rewrite audbuf_store_inside by lia. cbn [mbind outcome_bind].
  assert (Hu1 : usize (audbuf_used c + 1) = audbuf_used c + 1)
    by (unfold usize; rewrite Z.mod_small; lia).
  rewrite Hu1.
  rewrite audbuf_store_inside by (rewrite length_insert; lia).
  cbn [mbind outcome_bind].
  eexists; split; [reflexivity|]. cbn.
  rewrite !length_insert. repeat split.
  unfold usize, u32.
  rewrite (Z.mod_small (audbuf_used c + 1 + 1)) by lia.
  rewrite (Z.mod_small (audbuf_nsamples c + 1)) by lia.
  rewrite Z.mod_small; lia.
Qed.

Lemma pushes_inside l r (n : nat) : forall c,
  audbuf_nsamples c = Z.of_nat (length (audbuf c)) ->
  audbuf_nsamples c < 4294967295 ->
  0 <= audbuf_used c ->
  audbuf_used c + 2 * Z.of_nat n <= audbuf_nsamples c ->
  exists c', aud_run (replicate n (Push_sample l r)) c = Done c' /\
             audbuf_used c' = audbuf_used c + 2 * Z.of_nat n /\
             audbuf_nsamples c' = audbuf_nsamples c /\
             length (audbuf c') = length (audbuf c).
Proof.
  induction n as [|n IH]; intros c Hlen Hn H0 Hused.
  - exists c. simpl. repeat split; lia.
  - destruct (audscb_inside l r c Hlen Hn H0) as (c1 & Hrun & Hu & Hns & Hl);
      [lia|].
    destruct (IH c1) as (c2 & Hrun2 & Hu2 & Hns2 & Hl2); try lia.
    exists c2. cbn [replicate aud_run aud_step]. rewrite Hrun.
    cbn [mbind outcome_bind]. rewrite Hrun2. repeat split; lia.
Qed.

(** C2 (evaluated on the code).  For the buffer that the setup code
    allocates for [spf] samples per frame ([2 * spf + 4] samples),
    [spf + 2] calls of [libretro_audscb] leave [audbuf_used] equal to the
    allocation size, not below it, and the next call stores at that index,
    one past the last allocated sample. *)
Theorem audring_overruns_allocation l r spf :
  0 <= spf < 2147483645 ->
  let c0 := audbuf_setup spf in
  let n := Z.to_nat (spf + 2) in
  Z.of_nat (length (audbuf c0)) = audbuf_nsamples c0 /\
  (exists c, aud_run (replicate n (Push_sample l r)) c0 = Done c /\
             audbuf_used c = audbuf_nsamples c0) /\
  aud_run (replicate (n + 1) (Push_sample l r)) c0
    = Fault (OOB_write (audbuf_nsamples c0)).
Proof.
  intros Hspf c0 n.
  assert (Hns : audbuf_nsamples c0 = spf * 2 + 4).
  { unfold c0, audbuf_setup. cbn. unfold u32. apply Z.mod_small. lia. }
  assert (Hlen : Z.of_nat (length (audbuf c0)) = audbuf_nsamples c0).
  { unfold c0, audbuf_setup. cbn. rewrite length_replicate.
    unfold u32. rewrite Z.mod_small by lia. lia. }
  assert (Hu0 : audbuf_used c0 = 0) by reflexivity.
  assert (Hnn : Z.of_nat n = spf + 2) by (subst n; lia).
  destruct (pushes_inside l r n c0) as (c & Hrun & Hu & Hn & Hl); try lia.
  assert (Hfull : audbuf_used c = audbuf_nsamples c0) by lia.
  split; [exact Hlen|]. split; [exists c; split; assumption|].
  rewrite replicate_add, aud_run_app, Hrun. cbn.
  rewrite audscb_overruns_at_capacity by lia. cbn. now rewrite Hn.
Qed.

Lemma audring_overruns_allocation_witness :
  0 <= 1 < 2147483645 /\
  aud_run [Push_sample 1 2; Push_sample 1 2; Push_sample 1 2;
           Push_sample 1 2] (audbuf_setup 1) = Fault (OOB_write 6).
Proof.
  split; [lia|].
  apply (audring_overruns_allocation 1 2 1). lia.
Defined.

(** The same on concrete calls: six allocated samples, three sample pairs
    fill them, the fourth pair and a batch of four frames overrun. *)
Lemma audring_overrun_examples :
  let c0 := audbuf_setup 1 in
  audbuf_nsamples c0 = 6 /\
  length (audbuf c0) = 6%nat /\
  audbuf_used <$>
    aud_run [Push_sample 1 2; Push_sample 3 4; Push_sample 5 6] c0 = Done 6 /\
  aud_run [Push_sample 1 2; Push_sample 3 4; Push_sample 5 6;
           Push_sample 7 8] c0 = Fault (OOB_write 6) /\
  aud_run [Push_batch [1; 2; 3; 4; 5; 6; 7; 8] 4] c0 = Fault (OOB_write 6).
Proof. vm_compute. repeat split; reflexivity. Qed.

(** ** Video publish callback *)

(** The column loop only appends pixel stores. *)
Lemma vid_cols_stores n : forall x data buf dbuf c,
  exists pxs,
    stores (snd (vid_cols n x data buf dbuf c)) = stores c ++ pxs /\
    Forall is_px pxs /\
    shared (snd (vid_cols n x data buf dbuf c)) = shared c.
Proof.
  induction n as [|n IH]; intros x data buf dbuf c; simpl.
  - exists []. rewrite app_nil_r. repeat split; constructor.
  - destruct (IH (x + 1) data buf (dbuf + 1)
                (shared_store (Store_px dbuf (rgb555_to_rgba (data (buf + x)))) c))
      as (pxs & Hst & Hpx & Hsh).
    exists (Store_px dbuf (rgb555_to_rgba (data (buf + x))) :: pxs).
    rewrite Hst, Hsh. simpl. rewrite <- app_assoc. simpl.
    repeat split; [constructor; [exact I | exact Hpx]].
Qed.

(** So does the row loop. *)
Lemma vid_rows_stores n : forall width pitch data buf dbuf c,
  exists pxs,
    stores (snd (vid_rows n width pitch data buf dbuf c)) = stores c ++ pxs /\
    Forall is_px pxs /\
    shared (snd (vid_rows n width pitch data buf dbuf c)) = shared c.
Proof.
  induction n as [|n IH]; intros width pitch data buf dbuf c; simpl.
  - exists []. rewrite app_nil_r. repeat split; constructor.
  - destruct (vid_cols_stores (Z.to_nat width) 0 data buf dbuf c)
      as (pxs1 & Hst1 & Hpx1 & Hsh1).
    destruct (vid_cols (Z.to_nat width) 0 data buf dbuf c) as [dbuf1 c1].
    simpl in Hst1, Hsh1.
    destruct (IH width pitch data (buf + Z.shiftr pitch 1) dbuf1 c1)
      as (pxs2 & Hst2 & Hpx2 & Hsh2).
    exists (pxs1 ++ pxs2). rewrite Hst2, Hsh2, Hst1, Hsh1, app_assoc.
    repeat split. apply Forall_app; split; assumption.
Qed.

(** C7.  When the frame's dimensions differ from the segment's, every
    pixel store of the callback comes after the stores of the width, the
    height and the resized flag, in this order; unless the frame is dropped
    by [skipframe] (no store at all), the segment then carries the new
    dimensions with [resized] set. *)
Theorem vidcb_resize_before_pixels data width height pitch c :
  width <> w (shared c) \/ height <> h (shared c) ->
  let c' := libretro_vidcb data width height pitch c in
  exists new,
    stores c' = stores c ++ new /\
    (forall i idx val,
        new !! i = Some (Store_px idx val) ->
        (3 <= i)%nat /\
        new !! 0%nat = Some (Store_w (u16 width)) /\
        new !! 1%nat = Some (Store_h (u16 height)) /\
        new !! 2%nat = Some (Store_resized true)) /\
    (skipframe c = false ->
       Forall is_px (drop 3 new) /\
       w (shared c') = u16 width /\ h (shared c') = u16 height /\
       resized (shared c') = true) /\
    (skipframe c = true -> new = [] /\ shared c' = shared c).
Proof.
  intros Hdiff c'. subst c'. unfold libretro_vidcb.
  destruct (skipframe c) eqn:Hskip.
  - exists []. simpl. rewrite app_nil_r.
    repeat split; try discriminate; intros i idx val Hi;
      rewrite lookup_nil in Hi; discriminate.
  - assert (Hcond : negb (width =? w (shared c))
                    || negb (height =? h (shared c)) = true).
    { apply orb_true_iff.
      destruct Hdiff as [H|H]; [left|right];
        apply negb_true_iff, Z.eqb_neq; exact H. }
    rewrite Hcond.
    set (c3 := shared_store (Store_resized true)
                 (shared_store (Store_h (u16 height))
                    (shared_store (Store_w (u16 width)) c))).
    destruct (vid_rows_stores (Z.to_nat height) width pitch data 0 0 c3)
      as (pxs & Hst & Hpx & Hsh).
    exists ([Store_w (u16 width); Store_h (u16 height); Store_resized true]
            ++ pxs).
    rewrite Hst, Hsh. subst c3. simpl. rewrite <- !app_assoc. simpl.
    repeat split; try discriminate; try exact Hpx.
    destruct i as [|[|[|i]]]; simpl in H; try discriminate; lia.
Qed.

Lemma vidcb_resize_before_pixels_witness :
  (2 <> w (shared vidctx_320x240) \/ 1 <> h (shared vidctx_320x240)) /\
  exists new,
    stores (libretro_vidcb (fun _ => 0x7fff) 2 1 4 vidctx_320x240)
      = stores vidctx_320x240 ++ new /\
    new !! 0%nat = Some (Store_w 2) /\
    new !! 3%nat = Some (Store_px 0 0xfff8f8f8).
Proof.
  assert (H : 2 <> w (shared vidctx_320x240)
              \/ 1 <> h (shared vidctx_320x240)) by (left; simpl; lia).
  split; [exact H|].
  destruct (vidcb_resize_before_pixels (fun _ => 0x7fff) 2 1 4
              vidctx_320x240 H) as (new & Hst & _).
  exists new. split; [exact Hst|].
  vm_compute in Hst. subst new. split; reflexivity.
Defined.

(** ** Label translation *)


Lemma joypad_store_inv port button v m m' :
  joypad_store port button v m = Done m' ->
  0 <= port < MAX_PORTS /\ 0 <= button < MAX_BUTTONS /\
  joypad m' = alter (<[Z.to_nat button := v]>) (Z.to_nat port) (joypad m) /\
  axis m' = axis m.
Proof.
  unfold joypad_store.
  destruct ((0 <=? port) && (port <? MAX_PORTS) &&
            (0 <=? button) && (button <? MAX_BUTTONS)) eqn:Hc;
    [|discriminate].
  intros [= <-]. simpl.
  repeat (apply andb_true_iff in Hc as [Hc ?]).
  repeat split; lia.
Qed.

(** C8.  ["PLAYER1_BUTTON1"] stores the event's value at the first
    remap-table entry, [RETRO_DEVICE_ID_JOYPAD_A], of port 0;
    ["PLAYER2_UP"] stores it at [RETRO_DEVICE_ID_JOYPAD_UP] of port 1;
    ["PLAYER1_FROB"] returns with the matrix as it was. *)
Theorem label_translation_scenario dt ta da m :
  let ev (l : string) := {| label := l; datatype := dt;
                 translated_active := ta; digital_active := da |} in
  remaptbl !! 0%nat = Some RETRO_DEVICE_ID_JOYPAD_A /\
  ioev_ctxtbl (ev "PLAYER1_BUTTON1"%string) m =
    Done {| joypad := alter (<[Z.to_nat RETRO_DEVICE_ID_JOYPAD_A :=
                               ioev_value (ev "PLAYER1_BUTTON1"%string)]>)
                            0%nat (joypad m);
            axis := axis m |} /\
  ioev_ctxtbl (ev "PLAYER2_UP"%string) m =
    Done {| joypad := alter (<[Z.to_nat RETRO_DEVICE_ID_JOYPAD_UP :=
                               ioev_value (ev "PLAYER2_UP"%string)]>)
                            1%nat (joypad m);
            axis := axis m |} /\
  ioev_ctxtbl (ev "PLAYER1_FROB"%string) m = Done m.
Proof. intros ev. repeat split. Qed.



(** A subtype that scans as ["BUTTON%d"] matches none of the later
    alternatives. *)
Lemma button_prefix_excludes_others sub b :
  sscanf_d "BUTTON" sub = Some b ->
  sscanf_d "AXIS" sub = None /\
  strcmp_eq sub "UP" = false /\ strcmp_eq sub "DOWN" = false /\
  strcmp_eq sub "LEFT" = false /\ strcmp_eq sub "RIGHT" = false /\
  strcmp_eq sub "SELECT" = false /\ strcmp_eq sub "START" = false.
Proof.
  unfold sscanf_d. destruct sub as [|c sub]; [discriminate|].
  cbn [scan_lit mbind option_bind].
  destruct (Ascii.eqb "B" c) eqn:Hc; [|discriminate].
  apply Ascii.eqb_eq in Hc. subst c. intros _.
  repeat split; reflexivity.
Qed.

(** C10 (evaluated on the code).  For a label of an accepted player whose
    part after the underscore scans as ["BUTTON%d"] with a number [b]
    outside [1 .. MAX_BUTTONS - 6], the scanned number stays in [button]:
    when [b] is not negative, [joypad[ind - 1][b]] is stored (a store
    outside the row when [b >= MAX_BUTTONS]). *)
Theorem button_out_of_range_stores ioev m ind sub b :
  sscanf_d "PLAYER" (label ioev) = Some ind ->
  0 < ind < MAX_PORTS ->
  strchr (label ioev) "_" = Some sub ->
  sscanf_d "BUTTON" (str_next sub) = Some b ->
  in_int b = true ->
  b <= 0 \/ MAX_BUTTONS - 6 < b ->
  ioev_ctxtbl ioev m =
  if b >=? 0 then joypad_store (ind - 1) b (ioev_value ioev) m else Done m.
Proof.
  intros Hp Hind Hsub Hb Hint Hout.
  destruct (button_prefix_excludes_others _ _ Hb)
    as (Hax & H1 & H2 & H3 & H4 & H5 & H6).
  unfold ioev_ctxtbl. fold (ioev_value ioev).
  rewrite Hp. unfold scanned_int.
  replace (in_int ind) with true
    by (symmetry; unfold in_int, INT_MIN, INT_MAX, MAX_PORTS in *;
        apply andb_true_iff; split; apply Z.leb_le; lia).
  cbn [mbind outcome_bind].
  replace ((ind >? 0) && (ind <? MAX_PORTS)) with true
    by (symmetry; apply andb_true_iff; split;
        [rewrite Z.gtb_ltb|]; apply Z.ltb_lt; lia).
  rewrite Hsub, Hb, Hint. cbn [mbind outcome_bind andb].
  replace ((b >? 0) && (b <=? MAX_BUTTONS - 6)) with false.
  2:{ symmetry. apply andb_false_iff.
      destruct Hout; [left; rewrite Z.gtb_ltb; apply Z.ltb_ge
                     | right; apply Z.leb_gt]; lia. }
  rewrite Hax. cbn [mbind outcome_bind].
  rewrite H1, H2, H3, H4, H5, H6. reflexivity.
Qed.

Lemma button_out_of_range_stores_witness :
  sscanf_d "BUTTON" "BUTTON7" = Some 7 /\
  ioev_ctxtbl (pressed "PLAYER1_BUTTON7") inputmatr_zero =
  Done {| joypad := alter (<[7%nat := true]>) 0%nat (joypad inputmatr_zero);
          axis := axis inputmatr_zero |}.
Proof.
  split; [reflexivity|].
  rewrite (button_out_of_range_stores (pressed "PLAYER1_BUTTON7")
             inputmatr_zero 1 "_BUTTON7" 7).
  - reflexivity.
  - reflexivity.
  - unfold MAX_PORTS. lia.
  - reflexivity.
  - reflexivity.
  - reflexivity.
  - right. unfold MAX_BUTTONS. lia.
Defined.

(** The same on concrete labels: ["PLAYER1_BUTTON7"] and
    ["PLAYER1_BUTTON0"] store entries 7 and 0 of port 0, and
    ["PLAYER3_BUTTON12"] stores outside the row of port 2. *)
Lemma button_out_of_range_examples m :
  ioev_ctxtbl (pressed "PLAYER1_BUTTON7") m =
    Done {| joypad := alter (<[7%nat := true]>) 0%nat (joypad m);
            axis := axis m |} /\
  ioev_ctxtbl (pressed "PLAYER1_BUTTON0") m =
    Done {| joypad := alter (<[0%nat := true]>) 0%nat (joypad m);
            axis := axis m |} /\
  ioev_ctxtbl (pressed "PLAYER3_BUTTON12") m = Fault (OOB_write 36) /\
  (forall m', ioev_ctxtbl (pressed "PLAYER1_BUTTON7") inputmatr_zero = Done m'
              -> m' <> inputmatr_zero).
Proof.
  repeat split. intros m' H. vm_compute in H. injection H as <-. discriminate.
Qed.

(** [BUTTON1 .. BUTTON6] reach the remap-table entries in order. *)
Lemma button_labels_in_range m :
  let st b := Done {| joypad := alter (<[Z.to_nat b := true]>) 0%nat (joypad m);
                      axis := axis m |} in
  ioev_ctxtbl (pressed "PLAYER1_BUTTON1") m = st RETRO_DEVICE_ID_JOYPAD_A /\
  ioev_ctxtbl (pressed "PLAYER1_BUTTON2") m = st RETRO_DEVICE_ID_JOYPAD_B /\
  ioev_ctxtbl (pressed "PLAYER1_BUTTON3") m = st RETRO_DEVICE_ID_JOYPAD_X /\
  ioev_ctxtbl (pressed "PLAYER1_BUTTON4") m = st RETRO_DEVICE_ID_JOYPAD_Y /\
  ioev_ctxtbl (pressed "PLAYER1_BUTTON5") m = st RETRO_DEVICE_ID_JOYPAD_L /\
  ioev_ctxtbl (pressed "PLAYER1_BUTTON6") m = st RETRO_DEVICE_ID_JOYPAD_R.
Proof. intros st. repeat split. Qed.

End LibretroSpec.

(** * Properties of the raster decoder *)

Module RasterSpec.
Import Raster.

Lemma usize_small z : 0 <= z < 18446744073709551616 -> usize z = z.
Proof. intros H. unfold usize. apply Z.mod_small. exact H. Qed.

Lemma u16_small z : 0 <= z < 65536 -> u16 z = z.
Proof. intros H. unfold u16. apply Z.mod_small. exact H. Qed.

Lemma usize_nonneg z : 0 <= usize z.
Proof. unfold usize. apply Z.mod_pos_bound. lia. Qed.

(** ** Reading from the buffer *)

Lemma memcpy_from_prefix (bs rest : list Z) n :
  Z.of_nat (length bs) = n -> memcpy_from (bs ++ rest) n = Done bs.
Proof.
  intros Hn. unfold memcpy_from. rewrite length_app.
  replace (Z.of_nat (length bs + length rest) <? n) with false
    by (symmetry; apply Z.ltb_ge; lia).
  subst n. rewrite Nat2Z.id. now rewrite take_app_length.
Qed.

Lemma memcpy_from_enough (buf : list Z) n :
  n <= Z.of_nat (length buf) ->
  memcpy_from buf n = Done (take (Z.to_nat n) buf).
Proof.
  intros Hn. unfold memcpy_from.
  now replace (Z.of_nat (length buf) <? n) with false
    by (symmetry; apply Z.ltb_ge; lia).
Qed.

(** ** Drawing a glyph *)

(** [drawglyph] returns the cell width and leaves the rectangle and the
    cell geometry alone. *)
Lemma drawglyph_frame cl pitch x y maxx maxy s :
  fst (drawglyph cl pitch x y maxx maxy s) = cell_w (ctx s) /\
  let s' := snd (drawglyph cl pitch x y maxx maxy s) in
  x1 s' = x1 s /\ y1 s' = y1 s /\ x2 s' = x2 s /\ y2 s' = y2 s /\
  cell_w (ctx s') = cell_w (ctx s) /\ cell_h (ctx s') = cell_h (ctx s).
Proof.
  unfold drawglyph, line_marks, linehint.
  repeat match goal with
  | |- context [if ?b then _ else _] => destruct b
  end; cbn; repeat split; reflexivity.
Qed.

(** ** One cell of the inner loop *)

Section OneCell.
Variables (pitch max_w max_h alpha : Z).
Variables (n : nat) (draw_y : Z) (cellb rest : list Z) (buf_sz draw_x : Z).
Variable (s : rstate).
Hypothesis cell_len : length cellb = 12%nat.
Hypothesis cell_avail : raster_cell_sz <= buf_sz.

(** The first iteration on a buffer that starts with the bytes of a cell. *)
Lemma cells_loop_step :
  cells_loop pitch max_w max_h alpha (S n) draw_y (cellb ++ rest)
    buf_sz draw_x s =
  let cl := unpack_cell cellb alpha in
  let buf_sz' := buf_sz - raster_cell_sz in
  let c := ctx s in
  if has_attr cl CATTR_SKIP then
    cells_loop pitch max_w max_h alpha n draw_y rest buf_sz'
      (usize (draw_x + cell_w c)) s
  else if (usize (draw_x + cell_w c) <? max_w) &&
          (usize (draw_y + cell_h c) <? max_h) then
    let '(adv, s) := drawglyph cl pitch (to_int draw_x) (to_int draw_y)
                       max_w max_h s in
    let draw_x := usize (draw_x + adv) in
    let next_x := u16 (draw_x + cell_w c) in
    let s :=
      if (x2 s <? next_x) && (next_x <=? max_w) then set_x2 next_x s
      else s in
    cells_loop pitch max_w max_h alpha n draw_y rest buf_sz' draw_x s
  else
    cells_loop pitch max_w max_h alpha n draw_y rest buf_sz' draw_x s.
Proof.
  cbn [cells_loop].
  replace (buf_sz <? raster_cell_sz) with false
    by (symmetry; apply Z.ltb_ge; lia).
  rewrite memcpy_from_prefix by (rewrite cell_len; reflexivity).
  change (Z.to_nat raster_cell_sz) with 12%nat.
  rewrite <- cell_len, drop_app_length. reflexivity.
Qed.

End OneCell.





(** A row whose bottom edge reaches or passes the destination height: the
    cell loop returns the state it was given, whatever the cells are. *)
Lemma row_below_buffer_discarded pitch max_w max_h alpha draw_y (n : nat) :
  forall buf buf_sz draw_x s buf' buf_sz' s',
  max_h <= usize (draw_y + cell_h (ctx s)) ->
  cells_loop pitch max_w max_h alpha n draw_y buf buf_sz draw_x s
    = Done (buf', buf_sz', s') ->
  s' = s.
Proof.
  induction n as [|n IH];
    intros buf buf_sz draw_x s buf' buf_sz' s' Hoob Hrun.
  - simpl in Hrun. now injection Hrun as _ _ <-.
  - cbn [cells_loop] in Hrun.
    destruct (buf_sz <? raster_cell_sz); [now injection Hrun as _ _ <-|].
    apply bind_done_inv in Hrun as (bytes & _ & Hrun).
    destruct (has_attr _ CATTR_SKIP); [eapply IH; eassumption|].
    replace (usize (draw_y + cell_h (ctx s)) <? max_h) with false in Hrun
      by (symmetry; apply Z.ltb_ge; exact Hoob).
    rewrite andb_false_r in Hrun. eapply IH; eassumption.
Qed.

(** On whole buffers: the SKIP cell at column 0 draws nothing and the next
    cell is drawn one cell width further right; the cell at column 80 of an
    80-column destination is dropped, no call is made and [x2] stays 0. *)
Lemma skip_and_oob_evaluation :
  (exists s',
     raster_tobuf 640 640 480 buf_skip_then_A 44 state_8x16 = Done (1, s') /\
     vidp s' = [Call_tui_pixelfont_draw 640 65 8 0
                  (SHMIF_RGBA 10 20 30 255) (SHMIF_RGBA 40 50 60 255)
                  640 480]) /\
  (exists s',
     raster_tobuf 640 640 480 buf_one_cell_0_80 32 state_8x16 = Done (1, s') /\
     vidp s' = [] /\ x2 s' = 0).
Proof.
  split; eexists; (split; [vm_compute; reflexivity|]); cbn; repeat split.
Qed.

(** A cell that is drawn: the glyph is drawn at [draw_x], the loop goes on
    at [draw_x + cell_w], and the candidate for [x2] is one further cell
    width to the right of that. *)
Lemma drawn_cell_step
  pitch max_w max_h alpha n draw_y cellb rest buf_sz draw_x s :
  length cellb = 12%nat ->
  raster_cell_sz <= buf_sz ->
  has_attr (unpack_cell cellb alpha) CATTR_SKIP = false ->
  usize (draw_x + cell_w (ctx s)) < max_w ->
  usize (draw_y + cell_h (ctx s)) < max_h ->
  cells_loop pitch max_w max_h alpha (S n) draw_y (cellb ++ rest)
    buf_sz draw_x s =
  let s1 := snd (drawglyph (unpack_cell cellb alpha) pitch
                   (to_int draw_x) (to_int draw_y) max_w max_h s) in
  let draw_x' := usize (draw_x + cell_w (ctx s)) in
  let next_x := u16 (draw_x' + cell_w (ctx s)) in
  cells_loop pitch max_w max_h alpha n draw_y rest (buf_sz - raster_cell_sz)
    draw_x'
    (if (x2 s1 <? next_x) && (next_x <=? max_w) then set_x2 next_x s1
     else s1).
Proof.
  intros Hlen Hsz Hskip Hx Hy.
  rewrite cells_loop_step by assumption. cbn zeta. rewrite Hskip.
  replace ((usize (draw_x + cell_w (ctx s)) <? max_w) &&
           (usize (draw_y + cell_h (ctx s)) <? max_h)) with true
    by (symmetry; apply andb_true_iff; split; apply Z.ltb_lt; assumption).
  pose proof (drawglyph_frame (unpack_cell cellb alpha) pitch
                (to_int draw_x) (to_int draw_y) max_w max_h s) as [Hadv _].
  destruct (drawglyph _ _ _ _ _ _ _) as [adv s1]. simpl in Hadv. subst adv.
  reflexivity.
Qed.

(** ** The size check and acceptance *)




Section Loops.
Variables (pitch max_w max_h alpha : Z).
Variable (bgc : shmif_pixel).
Variable (update : bool).



End Loops.

Section SizeCheck.
Variables (pitch max_w max_h : Z) (buf : list Z) (buf_sz : Z) (s : rstate).

Let hdr := header_of_bytes (take (Z.to_nat raster_hdr_sz) buf).




End SizeCheck.




(** ** Full-frame mode *)

Lemma usize_ltb_0 z : (usize z <? 0) = false.
Proof. apply Z.ltb_ge, usize_nonneg. Qed.

Section FullFrame.
Variables (pitch max_w max_h alpha : Z) (bgc : shmif_pixel).

(** The cell loop keeps a rectangle that already spans the width. *)
Lemma cells_loop_whole_frame (n : nat) :
  forall draw_y buf buf_sz draw_x s buf' buf_sz' s',
  whole_frame max_w max_h s ->
  cells_loop pitch max_w max_h alpha n draw_y buf buf_sz draw_x s
    = Done (buf', buf_sz', s') ->
  whole_frame max_w max_h s'.
Proof.
  induction n as [|n IH];
    intros draw_y buf buf_sz draw_x s buf' buf_sz' s' Hs Hrun.
  - simpl in Hrun. injection Hrun as <- <- <-. exact Hs.
  - cbn [cells_loop] in Hrun.
    destruct (buf_sz <? raster_cell_sz);
      [injection Hrun as <- <- <-; exact Hs|].
    apply bind_done_inv in Hrun as (bytes & _ & Hrun).
    destruct (has_attr _ CATTR_SKIP); [eapply IH; eassumption|].
    destruct (_ && _); [|eapply IH; eassumption].
    pose proof (drawglyph_frame (unpack_cell bytes alpha) pitch
                  (to_int draw_x) (to_int draw_y) max_w max_h s)
      as (_ & Hx1 & Hy1 & Hx2 & Hy2 & _).
    destruct (drawglyph _ _ _ _ _ _ _) as [adv s1]. cbn [snd] in *.
    destruct Hs as (H1 & H2 & H3 & H4).
    eapply IH; [|exact Hrun].
    destruct (_ && _) eqn:Hc.
    + apply andb_true_iff in Hc as [Hlt Hle].
      apply Z.ltb_lt in Hlt. apply Z.leb_le in Hle. lia.
    + unfold whole_frame. rewrite Hx1, Hy1, Hx2, Hy2. auto.
Qed.

(** So does the head of a line in full-frame mode. *)
Lemma line_head_whole_frame line cur_y last_line s :
  whole_frame max_w max_h s ->
  whole_frame max_w max_h
    (snd (line_head pitch max_w max_h bgc false line cur_y last_line s)).
Proof.
  intros (H1 & H2 & H3 & H4). unfold line_head. cbn [andb negb].
  destruct (negb (cur_y =? start_line line));
    [destruct (negb (cur_y =? -1))|];
    cbn [y1 emit]; rewrite H2, usize_ltb_0;
    cbn [x1 emit]; rewrite H1, usize_ltb_0; cbn [snd];
    repeat split; assumption.
Qed.

Lemma lines_loop_whole_frame (lines : nat) :
  forall buf buf_sz cur_y last_line s r s',
  whole_frame max_w max_h s ->
  lines_loop pitch max_w max_h alpha bgc false lines buf buf_sz
    cur_y last_line s = Done (r, s') ->
  whole_frame max_w max_h s'.
Proof.
  induction lines as [|lines IH];
    intros buf buf_sz cur_y last_line s r s' Hs Hrun.
  - simpl in Hrun. injection Hrun as <- <-. exact Hs.
  - cbn [lines_loop] in Hrun.
    destruct (buf_sz =? 0); [injection Hrun as <- <-; exact Hs|].
    destruct (buf_sz <? raster_line_sz); [injection Hrun as <- <-; exact Hs|].
    apply bind_done_inv in Hrun as (bytes & _ & Hrun).
    pose proof (line_head_whole_frame (line_of_bytes bytes) cur_y
                  last_line s Hs) as Hhead.
    destruct (line_head _ _ _ _ _ _ _ _ _) as [[[[ll cy] dy] dx] s1].
    cbn [snd] in Hhead.
    apply bind_done_inv in Hrun as ([[buf1 sz1] s2] & Hcells & Hrun).
    eapply IH; [|exact Hrun].
    eapply cells_loop_whole_frame; eassumption.
Qed.

End FullFrame.

(** In full-frame mode every call that returns, with either result, leaves
    the rectangle (0, 0, max_w, max_h) for a destination whose dimensions
    fit the 16-bit outputs. *)
Lemma full_frame_rect pitch max_w max_h buf buf_sz s r s' :
  0 <= max_w < 65536 ->
  0 <= max_h < 65536 ->
  size_check (header_of_bytes (take (Z.to_nat raster_hdr_sz) buf)) buf_sz ->
  Z.land (hdr_flags (header_of_bytes (take (Z.to_nat raster_hdr_sz) buf)))
         RPACK_DFRAME = 0 ->
  raster_tobuf pitch max_w max_h buf buf_sz s = Done (r, s') ->
  whole_frame max_w max_h s'.
Proof.
  intros Hw Hh (Hge & Hle & Heq) Hflag. unfold raster_tobuf.
  replace ((buf_sz =? 0) || (buf_sz <? raster_hdr_sz)) with false.
  2:{ symmetry. apply orb_false_iff.
      split; [apply Z.eqb_neq | apply Z.ltb_ge]; unfold raster_hdr_sz in *; lia. }
  intros Hrun. apply bind_done_inv in Hrun as (bytes & Hread & Hrun).
  unfold memcpy_from in Hread.
  destruct (Z.of_nat (length buf) <? raster_hdr_sz); [discriminate|].
  injection Hread as <-.
  replace ((hdr_data_sz _ >? buf_sz) || _) with false in Hrun.
  2:{ symmetry. apply orb_false_iff. split.
      - rewrite Z.gtb_ltb. apply Z.ltb_ge. lia.
      - apply negb_false_iff, Z.eqb_eq. exact Heq. }
  rewrite Hflag in Hrun. cbn [Z.eqb negb] in Hrun.
  eapply lines_loop_whole_frame; [|exact Hrun].
  unfold whole_frame. cbn. rewrite !u16_small by lia. auto.
Qed.

(** ** Whole-buffer evaluations *)

Lemma u16_le z : 0 <= z -> u16 z <= z.
Proof. intros H. unfold u16. apply Z.mod_le; lia. Qed.

(** The head of the first line of a dirty frame: [y1] is set from the
    line's row, [x1] is lowered to the line's first column. *)
Lemma line_head_dirty_first pitch max_w max_h bgc line last_line s :
  0 <= start_line line ->
  line_head pitch max_w max_h bgc true line (-1) last_line s =
  let dy := usize (start_line line * cell_h (ctx s)) in
  let dx := usize (offset line * cell_w (ctx s)) in
  (if start_line line >? last_line then start_line line else last_line,
   start_line line, dy, dx,
   let s := set_y1 (u16 dy) s in
   if dx <? x1 s then set_x1 (u16 dx) s else s).
Proof.
  intros Hsl. unfold line_head. cbn [andb].
  change (-1 =? -1) with true. cbv iota.
  replace (-1 =? start_line line) with false
    by (symmetry; apply Z.eqb_neq; lia).
  cbn [negb andb ctx set_y1 y1].
  replace (usize (start_line line * cell_h (ctx s)) <?
           u16 (usize (start_line line * cell_h (ctx s)))) with false.
  2:{ symmetry. apply Z.ltb_ge, u16_le, usize_nonneg. }
  reflexivity.
Qed.

(** C3 (evaluated on the code).  For the dirty frame with a single cell at
    row 5, column 3, any cell size and any destination in which the cell is
    drawn (all values within the 16-bit range of the outputs), the decoder
    returns 1 with x1 = 3 * cell_w, y1 = 5 * cell_h,
    y2 = 6 * cell_h, and with x2 = 5 * cell_w when that does not exceed the
    width and x2 = 0 otherwise: never the right edge 4 * cell_w of the
    drawn cell. *)
Theorem single_cell_dirty_rect pitch max_w max_h s :
  let cw := cell_w (ctx s) in
  let ch := cell_h (ctx s) in
  0 < cw -> 0 < ch ->
  4 * cw < max_w -> 6 * ch < max_h ->
  max_w < 65536 -> max_h < 65536 -> 5 * cw < 65536 ->
  exists s',
    raster_tobuf pitch max_w max_h buf_one_cell_5_3 32 s = Done (1, s') /\
    x1 s' = 3 * cw /\ y1 s' = 5 * ch /\ y2 s' = 6 * ch /\
    x2 s' = (if 5 * cw <=? max_w then 5 * cw else 0) /\
    x2 s' <> 4 * cw.
Proof.
  intros cw ch Hcw Hch Hw Hh Hmw Hmh Hcw5.
  unfold raster_tobuf.
  change ((32 =? 0) || (32 <? raster_hdr_sz)) with false. cbv iota.
  change (memcpy_from buf_one_cell_5_3 raster_hdr_sz) with
    (Done (take 14 buf_one_cell_5_3)).
  cbn [mbind outcome_bind].
  set (hdr := header_of_bytes (take 14 buf_one_cell_5_3)).
  vm_compute in hdr. subst hdr.
  cbn [hdr_data_sz hdr_lines hdr_cells hdr_flags hdr_bgc hdr_cursor_state].
  change ((32 >? 32) ||
          negb (32 =? 1 * raster_line_sz + 1 * raster_cell_sz + raster_hdr_sz))
    with false.
  change (negb (Z.land 1 RPACK_DFRAME =? 0)) with true.
  cbv iota.
  change (Z.to_nat 1) with 1%nat.
  (* the state on entry of the line loop *)
  set (s0 := set_ctx _ _).
  assert (Hs0 : x1 s0 = max_w /\ y1 s0 = max_h /\ x2 s0 = 0 /\ y2 s0 = 0 /\
                cell_w (ctx s0) = cw /\ cell_h (ctx s0) = ch).
  { subst s0. cbn. rewrite !u16_small by lia. repeat split; reflexivity. }
  clearbody s0. destruct Hs0 as (H1 & H2 & H3 & H4 & H5 & H6).
  cbn [lines_loop].
  change (32 - raster_hdr_sz =? 0) with false.
  change (32 - raster_hdr_sz <? raster_line_sz) with false. cbv iota.
  change (drop (Z.to_nat raster_hdr_sz) buf_one_cell_5_3) with
    (line_bytes {| start_line := 5; offset := 3; ncells := 1 |} ++ cell_A).
  rewrite memcpy_from_prefix by reflexivity.
  cbn [mbind outcome_bind].
  change (line_of_bytes
            (line_bytes {| start_line := 5; offset := 3; ncells := 1 |}))
    with {| start_line := 5; offset := 3; ncells := 1 |}.
  change (drop (Z.to_nat raster_line_sz)
            (line_bytes {| start_line := 5; offset := 3; ncells := 1 |}
             ++ cell_A))
    with (cell_A ++ []).
  rewrite line_head_dirty_first by (cbn; lia).
  cbn [start_line offset ncells]. cbv zeta.
  rewrite H5, H6.
  rewrite (usize_small (5 * ch)), (usize_small (3 * cw)) by lia.
  rewrite (u16_small (5 * ch)), (u16_small (3 * cw)) by lia.
  cbn [x1 set_y1]. rewrite H1.
  replace (3 * cw <? max_w) with true by (symmetry; apply Z.ltb_lt; lia).
  (* the state on entry of the cell loop *)
  set (s1 := set_x1 _ _).
  assert (Hs1 : x1 s1 = 3 * cw /\ y1 s1 = 5 * ch /\ x2 s1 = 0 /\ y2 s1 = 0 /\
                cell_w (ctx s1) = cw /\ cell_h (ctx s1) = ch).
  { subst s1. cbn. repeat split; assumption || reflexivity. }
  clearbody s1. clear H1 H2 H3 H4 H5 H6.
  destruct Hs1 as (H1 & H2 & H3 & H4 & H5 & H6).
  change (Z.to_nat 1) with 1%nat.
  rewrite drawn_cell_step;
    [|reflexivity|vm_compute; discriminate|reflexivity|..].
  2:{ rewrite H5, usize_small; lia. }
  2:{ rewrite H6, usize_small; lia. }
  cbv zeta.
  pose proof (drawglyph_frame
                (unpack_cell cell_A ([1; 2; 3; 255] !!! 3%nat)) pitch
                (to_int (3 * cw)) (to_int (5 * ch)) max_w max_h s1)
    as (_ & G1 & G2 & G3 & G4 & G5 & G6).
  set (s2 := snd (drawglyph _ _ _ _ _ _ _)) in *. clearbody s2.
  rewrite H5. rewrite (usize_small (3 * cw + cw)) by lia.
  rewrite (u16_small (3 * cw + cw + cw)) by lia.
  rewrite G3, H3.
  replace (0 <? 3 * cw + cw + cw) with true by (symmetry; apply Z.ltb_lt; lia).
  replace (3 * cw + cw + cw) with (5 * cw) by lia.
  cbn [andb cells_loop mbind outcome_bind]. unfold tobuf_finish.
  eexists. split; [reflexivity|].
  destruct (5 * cw <=? max_w); cbn; rewrite ?G3, G1, G2, G6, H1, H2, ?H3, H6;
    rewrite usize_small, u16_small by lia; repeat split; lia.
Qed.

Lemma single_cell_dirty_rect_witness :
  (0 < 8 /\ 0 < 16 /\ 4 * 8 < 640 /\ 6 * 16 < 480 /\ 5 * 8 < 65536) /\
  exists s',
    raster_tobuf 640 640 480 buf_one_cell_5_3 32 state_8x16 = Done (1, s') /\
    x1 s' = 24 /\ y1 s' = 80 /\ x2 s' = 40 /\ y2 s' = 96 /\ x2 s' <> 32.
Proof.
  split; [lia|].
  destruct (single_cell_dirty_rect 640 640 480 state_8x16)
    as (s' & Hrun & Hx1 & Hy1 & Hy2 & Hx2 & Hne); try (simpl; lia).
  exists s'. simpl in *. repeat split; assumption.
Defined.

(** The drawing done by the head of a line: nothing, except the gap fill
    of full-frame mode. *)
Lemma line_head_vidp pitch max_w max_h bgc update line cur_y last_line s :
  vidp (snd (line_head pitch max_w max_h bgc update line cur_y last_line s))
  = vidp s ++
    (if negb (cur_y =? start_line line) && negb update && negb (cur_y =? -1)
     then [Call_draw_box_px pitch max_w max_h
             0 (usize (cur_y * cell_h (ctx s)))
             (cell_w (ctx s))
             (usize (cell_h (ctx s) * (start_line line - cur_y))) bgc]
     else []).
Proof.
  unfold line_head.
  destruct update, (cur_y =? start_line line), (cur_y =? -1); cbn [negb andb];
    repeat match goal with
    | |- context [if ?b then _ else _] => destruct b
    end; cbn; rewrite ?app_nil_r; reflexivity.
Qed.

(** C4 (evaluated on the code).  In full-frame mode the head of a line that
    does not start at the running row fills the gap with one box at x = 0
    whose width is [cell_w], one cell, whatever the width of the
    destination.  For the full frame with lines at rows 0 and 2 (8x16
    cells, 640x480 destination) the decoder returns 1 with the rectangle
    (0, 0, 640, 480), and the only call that touches row 1 is the box at
    x = 0, y = 16 of width 8 and height 16 in the background color. *)
Theorem full_frame_gap_fill :
  (forall pitch max_w max_h bgc line cur_y last_line s,
     cur_y <> -1 -> cur_y <> start_line line ->
     vidp (snd (line_head pitch max_w max_h bgc false line cur_y last_line s))
     = vidp s ++
       [Call_draw_box_px pitch max_w max_h
          0 (usize (cur_y * cell_h (ctx s)))
          (cell_w (ctx s))
          (usize (cell_h (ctx s) * (start_line line - cur_y))) bgc]) /\
  exists s',
    raster_tobuf 640 640 480 buf_gap_row 50 state_8x16 = Done (1, s') /\
    vidp s' =
      [Call_tui_pixelfont_draw 640 65 0 0
         (SHMIF_RGBA 10 20 30 255) (SHMIF_RGBA 40 50 60 255) 640 480;
       Call_draw_box_px 640 640 480 0 16 8 16 (SHMIF_RGBA 1 2 3 255);
       Call_tui_pixelfont_draw 640 65 0 32
         (SHMIF_RGBA 10 20 30 255) (SHMIF_RGBA 40 50 60 255) 640 480] /\
    x1 s' = 0 /\ y1 s' = 0 /\ x2 s' = 640 /\ y2 s' = 480.
Proof.
  split.
  - intros pitch max_w max_h bgc line cur_y last_line s Hc1 Hc2.
    rewrite line_head_vidp.
    replace (cur_y =? start_line line) with false
      by (symmetry; apply Z.eqb_neq; exact Hc2).
    replace (cur_y =? -1) with false
      by (symmetry; apply Z.eqb_neq; exact Hc1).
    reflexivity.
  - eexists. split; [vm_compute; reflexivity|].
    cbn. repeat split.
Qed.

(** The single cell at row 5, column 3 with 8x16 cells: the glyph is drawn
    at (24, 80) and covers columns 24 .. 31, the rectangle ends at 40. *)
Lemma single_cell_evaluation :
  exists s',
    raster_tobuf 640 640 480 buf_one_cell_5_3 32 state_8x16 = Done (1, s') /\
    vidp s' = [Call_tui_pixelfont_draw 640 65 24 80
                 (SHMIF_RGBA 10 20 30 255) (SHMIF_RGBA 40 50 60 255) 640 480] /\
    x1 s' = 24 /\ y1 s' = 80 /\ x2 s' = 40 /\ y2 s' = 96.
Proof.
  eexists. split; [vm_compute; reflexivity|].
  cbn. repeat split.
Qed.

(** A drawn cell that the rectangle does not cover: the cell at column 79
    is drawn at x = 632 (it ends at 640, inside the 644 pixels), the
    candidate 632 + 2 * 8 = 648 exceeds the width, and [x2] stays 0. *)
Lemma drawn_cell_outside_rect :
  exists s',
    raster_tobuf 644 644 480 buf_one_cell_0_79 32 state_8x16 = Done (1, s') /\
    vidp s' = [Call_tui_pixelfont_draw 644 65 632 0
                 (SHMIF_RGBA 10 20 30 255) (SHMIF_RGBA 40 50 60 255) 644 480] /\
    x1 s' = 632 /\ y1 s' = 0 /\ x2 s' = 0 /\ y2 s' = 16.
Proof.
  eexists. split; [vm_compute; reflexivity|].
  cbn. repeat split.
Qed.

End RasterSpec.

(** * Bit arithmetic shared by the properties below *)

Lemma testbit_small a i : 0 <= a < 2 ^ i -> Z.testbit a i = false.
Proof.
  intros Ha. destruct (Z.eq_dec a 0) as [->|Hne]; [apply Z.bits_0|].
  apply Z.bits_above_log2; [lia|].
  apply Z.log2_lt_pow2; lia.
Qed.

Lemma land_shifted_small a b n :
  0 <= n -> 0 <= a < 2 ^ n -> Z.land (b * 2 ^ n) a = 0.
Proof.
  intros Hn Ha. apply Z.bits_inj'. intros i Hi.
  rewrite Z.land_spec, Z.bits_0.
  destruct (Z.lt_ge_cases i n) as [Hlt|Hge].
  - rewrite Z.mul_pow2_bits_low by lia. reflexivity.
  - rewrite (testbit_small a i), andb_false_r; [reflexivity|].
    split; [lia|]. apply Z.lt_le_trans with (2 ^ n); [lia|].
    apply Z.pow_le_mono_r; lia.
Qed.

(** Or-ing a value below [2 ^ n] into a multiple of [2 ^ n] adds it. *)
Lemma lor_mul_add k y n :
  0 <= n -> 0 <= y < 2 ^ n -> Z.lor (k * 2 ^ n) y = k * 2 ^ n + y.
Proof.
  intros Hn Ha.
  rewrite <- Z.lxor_lor by (apply land_shifted_small; assumption).
  symmetry. apply Z.add_nocarry_lxor. apply land_shifted_small; assumption.
Qed.

(** * Further properties of the libretro frameserver *)

Module LibretroProps.
Import Libretro LibretroSpec.

(** ** Video: the published frame *)

(** X2.  The pixel conversion of [libretro_vidcb] takes the three 5-bit
    fields of an RGB1555 word, scales each by 8 and packs them with an
    opaque top byte: bits 0-4 of the input land in bits 16-23 of the
    output, bits 5-9 in bits 8-15 and bits 10-14 in bits 0-7; bit 15 is
    dropped. *)
Theorem rgb555_to_rgba_channels v :
  rgb555_to_rgba v =
    255 * 16777216 + (8 * (v mod 32)) * 65536
    + (8 * ((v / 32) mod 32)) * 256 + 8 * ((v / 1024) mod 32).
Proof.
  unfold rgb555_to_rgba.
  assert (Hb : Z.land v 31 = v mod 32) by (apply (Z.land_ones v 5); lia).
  assert (Hg : Z.shiftr (Z.land v 992) 5 = (v / 32) mod 32).
  { rewrite Z.shiftr_land. change (Z.shiftr 992 5) with (Z.ones 5).
    rewrite Z.land_ones by lia. rewrite Z.shiftr_div_pow2 by lia. reflexivity. }
  assert (Hr : Z.shiftr (Z.land v 31744) 10 = (v / 1024) mod 32).
  { rewrite Z.shiftr_land. change (Z.shiftr 31744 10) with (Z.ones 5).
    rewrite Z.land_ones by lia. rewrite Z.shiftr_div_pow2 by lia. reflexivity. }
  rewrite Hb, Hg, Hr.
  pose proof (Z.mod_pos_bound v 32 ltac:(lia)) as B1.
  pose proof (Z.mod_pos_bound (v / 32) 32 ltac:(lia)) as B2.
  pose proof (Z.mod_pos_bound (v / 1024) 32 ltac:(lia)) as B3.
  set (b := v mod 32) in *. set (g := (v / 32) mod 32) in *.
  set (r := (v / 1024) mod 32) in *.
  rewrite !Z.shiftl_mul_pow2 by lia.
  change (2 ^ 3) with 8. change (2 ^ 24) with 16777216.
  change (2 ^ 16) with 65536. change (2 ^ 8) with 256.
  unfold u8. rewrite !Z.mod_small by lia.
  replace (255 * 16777216) with (255 * 2 ^ 24) by reflexivity.
  rewrite (lor_mul_add 255 (b * 8 * 65536) 24) by lia.
  replace (255 * 2 ^ 24 + b * 8 * 65536)
    with ((255 * 256 + b * 8) * 2 ^ 16) by lia.
  rewrite (lor_mul_add _ (g * 8 * 256) 16) by lia.
  replace ((255 * 256 + b * 8) * 2 ^ 16 + g * 8 * 256)
    with (((255 * 256 + b * 8) * 256 + g * 8) * 2 ^ 8) by lia.
  rewrite (lor_mul_add _ (r * 8) 8) by lia.
  unfold u32. rewrite Z.mod_small; lia.
Qed.

(** The framebuffer after one row: the words [dbuf .. dbuf + n - 1] hold the
    converted row, the others are as before. *)
Lemma vid_cols_fb (n : nat) : forall x0 data buf dbuf c,
  fst (vid_cols n x0 data buf dbuf c) = dbuf + Z.of_nat n /\
  forall i,
    framebuffer (snd (vid_cols n x0 data buf dbuf c)) !! i =
    if decide (dbuf <= i < dbuf + Z.of_nat n)
    then Some (rgb555_to_rgba (data (buf + x0 + (i - dbuf))))
    else framebuffer c !! i.
Proof.
  induction n as [|n IH]; intros x0 data buf dbuf c.
  - simpl. split; [lia|]. intros i. case_decide; [lia | reflexivity].
  - cbn [vid_cols].
    destruct (IH (x0 + 1) data buf (dbuf + 1)
                (shared_store (Store_px dbuf (rgb555_to_rgba (data (buf + x0)))) c))
      as [Hd Hfb].
    split; [rewrite Hd; lia|]. intros i. rewrite Hfb.
    repeat case_decide; try lia.
    + do 3 f_equal. lia.
    + assert (i = dbuf) as -> by lia. cbn.
      rewrite lookup_insert_eq. do 3 f_equal. lia.
    + cbn. rewrite lookup_insert_ne by lia. reflexivity.
Qed.

Lemma vid_rows_fb (n : nat) : forall W pitch data buf dbuf c,
  0 <= W ->
  let r := vid_rows n W pitch data buf dbuf c in
  fst r = dbuf + Z.of_nat n * W /\
  (forall y x, 0 <= y < Z.of_nat n -> 0 <= x < W ->
     framebuffer (snd r) !! (dbuf + y * W + x) =
     Some (rgb555_to_rgba (data (buf + y * Z.shiftr pitch 1 + x)))) /\
  (forall i, i < dbuf \/ dbuf + Z.of_nat n * W <= i ->
     framebuffer (snd r) !! i = framebuffer c !! i).
Proof.
  induction n as [|n IH]; intros W pitch data buf dbuf c HW r; subst r.
  - simpl. split; [lia|]. split; [intros; lia | reflexivity].
  - cbn [vid_rows].
    destruct (vid_cols_fb (Z.to_nat W) 0 data buf dbuf c) as [Hd Hfb].
    destruct (vid_cols (Z.to_nat W) 0 data buf dbuf c) as [dbuf1 c1].
    cbn [fst snd] in Hd, Hfb. rewrite Z2Nat.id in Hd, Hfb by lia. subst dbuf1.
    destruct (IH W pitch data (buf + Z.shiftr pitch 1) (dbuf + W) c1 HW)
      as (Hd2 & Hin & Hout).
    split; [rewrite Hd2; lia|]. split.
    + intros y x Hy Hx. destruct (Z.eq_dec y 0) as [->|Hne].
      * rewrite Hout by nia. rewrite Hfb. case_decide; [|lia].
        do 3 f_equal. lia.
      * replace (dbuf + y * W + x) with (dbuf + W + (y - 1) * W + x) by lia.
        rewrite Hin by lia. do 3 f_equal. lia.
    + intros i Hi. rewrite Hout by nia. rewrite Hfb.
      case_decide; [nia | reflexivity].
Qed.

(** X1.  A call of [libretro_vidcb] that is not skipped leaves, in
    framebuffer word [y * width + x] of every pixel of the frame, the
    conversion of the input word at column [x] of row [y] (rows are
    [pitch >> 1] words apart, the output is packed without padding), and
    leaves every word outside [0 .. width * height - 1] as it was. *)
Theorem vidcb_publishes_frame data width height pitch c x y :
  skipframe c = false ->
  0 <= x < width -> 0 <= y < height ->
  let c' := libretro_vidcb data width height pitch c in
  framebuffer c' !! (y * width + x) =
    Some (rgb555_to_rgba (data (y * Z.shiftr pitch 1 + x))) /\
  (forall i, i < 0 \/ width * height <= i ->
     framebuffer c' !! i = framebuffer c !! i).
Proof.
  intros Hskip Hx Hy c'. subst c'. unfold libretro_vidcb. rewrite Hskip.
  assert (Hgen : forall c1, framebuffer c1 = framebuffer c ->
    framebuffer (snd (vid_rows (Z.to_nat height) width pitch data 0 0 c1))
      !! (y * width + x) =
      Some (rgb555_to_rgba (data (y * Z.shiftr pitch 1 + x))) /\
    (forall i, i < 0 \/ width * height <= i ->
       framebuffer (snd (vid_rows (Z.to_nat height) width pitch data 0 0 c1))
         !! i = framebuffer c !! i)).
  { intros c1 Hfb.
    destruct (vid_rows_fb (Z.to_nat height) width pitch data 0 0 c1)
      as (_ & Hin & Hout); [lia|].
    rewrite Z2Nat.id in Hin, Hout by lia. split.
    - specialize (Hin y x Hy Hx). cbn in Hin. exact Hin.
    - intros i Hi. rewrite Hout by lia. now rewrite Hfb. }
  destruct (_ || _); apply Hgen; reflexivity.
Qed.

Lemma vidcb_publishes_frame_witness :
  skipframe vidctx_320x240 = false /\ 0 <= 1 < 2 /\ 0 <= 2 < 3 /\
  framebuffer (libretro_vidcb (fun i => i) 2 3 8 vidctx_320x240) !! 5
    = Some (rgb555_to_rgba 9).
Proof.
  assert (H1 : 0 <= 1 < 2) by lia. assert (H2 : 0 <= 2 < 3) by lia.
  split; [reflexivity|]. split; [exact H1|]. split; [exact H2|].
  exact (proj1 (vidcb_publishes_frame (fun i => i) 2 3 8 vidctx_320x240
                  1 2 eq_refl H1 H2)).
Defined.

(** ** Audio: the accumulator between two flushes *)

Lemma audbuf_store_done i v (buf buf' : list Z) :
  audbuf_store i v buf = Done buf' ->
  0 <= i < Z.of_nat (length buf) /\ buf' = <[Z.to_nat i := v]> buf.
Proof.
  unfold audbuf_store.
  destruct ((0 <=? i) && (i <? Z.of_nat (length buf))) eqn:Hc; [|discriminate].
  intros [= <-]. apply andb_true_iff in Hc as [H1 H2].
  apply Z.leb_le in H1. apply Z.ltb_lt in H2. auto.
Qed.

(** A copy that returns stayed inside the allocation. *)
Lemma audbuf_memcpy_done (data : list Z) : forall i buf buf',
  audbuf_memcpy i data buf = Done buf' ->
  length buf' = length buf /\
  (data <> [] -> 0 <= i /\ i + Z.of_nat (length data) <= Z.of_nat (length buf)).
Proof.
  induction data as [|v data IH]; intros i buf buf' Hrun.
  - simpl in Hrun. injection Hrun as <-. split; [reflexivity | congruence].
  - cbn [audbuf_memcpy] in Hrun.
    apply bind_done_inv in Hrun as (buf1 & Hst & Hrun).
    apply audbuf_store_done in Hst as [Hi ->].
    apply IH in Hrun as [Hlen Hb]. rewrite length_insert in Hlen, Hb.
    split; [exact Hlen|]. intros _.
    destruct data as [|v' data]; [simpl; lia|].
    specialize (Hb ltac:(discriminate)). cbn [length] in *. lia.
Qed.

(** What a copy that returns leaves below its end. *)
Lemma audbuf_memcpy_content (data : list Z) : forall i buf buf',
  audbuf_memcpy i data buf = Done buf' -> 0 <= i <= Z.of_nat (length buf) ->
  take (Z.to_nat i + length data) buf' = take (Z.to_nat i) buf ++ data.
Proof.
  induction data as [|v data IH]; intros i buf buf' Hrun Hi.
  - simpl in Hrun. injection Hrun as <-.
    rewrite Nat.add_0_r, app_nil_r. reflexivity.
  - cbn [audbuf_memcpy] in Hrun.
    apply bind_done_inv in Hrun as (buf1 & Hst & Hrun).
    apply audbuf_store_done in Hst as [Hi1 ->].
    apply IH in Hrun; [|rewrite length_insert; lia].
    replace (Z.to_nat (i + 1)) with (S (Z.to_nat i)) in Hrun by lia.
    cbn [length]. replace (Z.to_nat i + S (length data))%nat
      with (S (Z.to_nat i) + length data)%nat by lia.
    rewrite Hrun.
    rewrite (take_S_r _ _ v) by (apply list_lookup_insert_eq; lia).
    rewrite take_insert_ge by lia. rewrite <- app_assoc. reflexivity.
Qed.

(** A copy that fits the allocation returns. *)
Lemma audbuf_memcpy_fits (data : list Z) : forall i buf,
  0 <= i -> i + Z.of_nat (length data) <= Z.of_nat (length buf) ->
  exists buf', audbuf_memcpy i data buf = Done buf'.
Proof.
  induction data as [|v data IH]; intros i buf Hi Hfit.
  - eexists. reflexivity.
  - cbn [audbuf_memcpy length] in *.
    rewrite audbuf_store_inside by lia. cbn [mbind outcome_bind].
    apply IH; [lia|]. rewrite length_insert. lia.
Qed.

(** One producer call that returns: the cursor advances by the number of
    samples of the call, without wrapping, and the accumulator stays
    consistent. *)
Lemma aud_step_exact c k c' :
  aud_wf c -> aud_call_ok k ->
  aud_step c k = Done c' ->
  audbuf_used c' = audbuf_used c + aud_call_samples k /\
  audbuf_nsamples c' = audbuf_nsamples c /\ aud_wf c'.
Proof.
  intros (Hlen & Hn & Hu) Hok Hstep.
  assert (Hm : u32 (audbuf_nsamples c + 1) = audbuf_nsamples c + 1)
    by (unfold u32; apply Z.mod_small; lia).
  destruct k as [data nframes | l r]; cbn [aud_step aud_call_samples] in *.
  - destruct Hok as [Hnf Hdata].
    unfold libretro_audcb in Hstep.
    rewrite (RasterSpec.usize_small (nframes * 2)) in Hstep by lia.
    rewrite firstn_all2 in Hstep by lia.
    destruct (audbuf_memcpy _ _ _) as [buf|f] eqn:Hcp; [|discriminate].
    cbn in Hstep. injection Hstep as <-.
    cbn [audbuf_used audbuf_nsamples audbuf].
    apply audbuf_memcpy_done in Hcp as [Hl Hb].
    assert (Hfit : audbuf_used c + nframes * 2 <= audbuf_nsamples c).
    { destruct data as [|v data]; [simpl in Hdata; lia|].
      specialize (Hb ltac:(discriminate)). lia. }
    rewrite Hm. rewrite (RasterSpec.usize_small (audbuf_used c + nframes * 2)) by lia.
    rewrite Z.mod_small by lia.
    split; [lia|]. split; [reflexivity|].
    unfold aud_wf. cbn [audbuf_used audbuf_nsamples audbuf]. rewrite Hl. lia.
  - unfold libretro_audscb in Hstep.
    apply bind_done_inv in Hstep as (buf1 & Hs1 & Hstep).
    apply bind_done_inv in Hstep as (buf2 & Hs2 & Hstep).
    apply audbuf_store_done in Hs1 as [Hi1 ->].
    rewrite (RasterSpec.usize_small (audbuf_used c + 1)) in Hs2, Hstep by lia.
    apply audbuf_store_done in Hs2 as [Hi2 ->].
    rewrite length_insert in Hi2.
    injection Hstep as <-. cbn [audbuf_used audbuf_nsamples audbuf].
    rewrite Hm. rewrite (RasterSpec.usize_small (audbuf_used c + 1 + 1)) by lia.
    rewrite Z.mod_small by lia.
    split; [lia|]. split; [reflexivity|].
    unfold aud_wf. cbn [audbuf_used audbuf_nsamples audbuf].
    rewrite !length_insert. lia.
Qed.

Lemma aud_run_exact (ks : list aud_call) : forall c c',
  aud_wf c -> Forall aud_call_ok ks ->
  aud_run ks c = Done c' ->
  audbuf_used c' = audbuf_used c + aud_total ks /\
  audbuf_nsamples c' = audbuf_nsamples c /\ aud_wf c'.
Proof.
  induction ks as [|k ks IH]; intros c c' Hwf Hok Hrun.
  - simpl in Hrun. injection Hrun as <-. simpl.
    split; [lia|]. split; [reflexivity | exact Hwf].
  - cbn [aud_run] in Hrun. apply bind_done_inv in Hrun as (c1 & Hstep & Hrun).
    inversion Hok as [|? ? Hk Hks]; subst.
    destruct (aud_step_exact c k c1 Hwf Hk Hstep) as (Hu1 & Hn1 & Hwf1).
    destruct (IH c1 c' Hwf1 Hks Hrun) as (Hu2 & Hn2 & Hwf2).
    split; [unfold aud_total in *; cbn [foldr]; lia|].
    split; [congruence | exact Hwf2].
Qed.

Lemma aud_total_nonneg ks : Forall aud_call_ok ks -> 0 <= aud_total ks.
Proof.
  induction 1 as [|k ks Hk _ IH]; [reflexivity|].
  unfold aud_total in *. cbn [foldr].
  destruct k as [data nframes | l r];
    cbn [aud_call_samples aud_call_ok] in *; lia.
Qed.

Lemma aud_step_fits c k :
  aud_wf c -> aud_call_ok k ->
  audbuf_used c + aud_call_samples k <= audbuf_nsamples c ->
  exists c', aud_step c k = Done c'.
Proof.
  intros (Hlen & Hn & Hu) Hok Hfit.
  destruct k as [data nframes | l r];
    cbn [aud_step aud_call_samples aud_call_ok] in *.
  - destruct Hok as [Hnf Hdata]. unfold libretro_audcb.
    rewrite (RasterSpec.usize_small (nframes * 2)) by lia.
    rewrite firstn_all2 by lia.
    destruct (audbuf_memcpy_fits data (audbuf_used c) (audbuf c)) as [buf' ->];
      [lia | lia |].
    eexists. reflexivity.
  - assert (Hcp : exists buf',
              audbuf_memcpy (audbuf_used c) [l; r] (audbuf c) = Done buf')
      by (apply audbuf_memcpy_fits; cbn [length]; lia).
    destruct Hcp as [buf' Hcp]. cbn [audbuf_memcpy] in Hcp.
    unfold libretro_audscb.
    rewrite (RasterSpec.usize_small (audbuf_used c + 1)) by lia.
    destruct (audbuf_store (audbuf_used c) l (audbuf c)) as [b1|];
      [|discriminate].
    cbn [mbind outcome_bind] in *.
    destruct (audbuf_store (audbuf_used c + 1) r b1) as [b2|]; [|discriminate].
    cbn [mbind outcome_bind]. eexists. reflexivity.
Qed.

(** The accumulator of the setup code with room for one frame of audio
    and four more samples: six samples, none used. *)
Lemma audbuf_setup_wf : aud_wf (audbuf_setup 1).
Proof. unfold aud_wf. vm_compute. repeat split; discriminate. Qed.

(** X3.  On a consistent accumulator, a sequence of producer calls that
    all return has advanced [audbuf_used] by exactly the number of samples
    pushed: the reduction modulo [audbuf_nsamples + 1] never takes effect
    on a run that returns, [audbuf_nsamples] is unchanged and the cursor
    stays within [0 .. audbuf_nsamples]. *)
Theorem aud_run_accumulates (ks : list aud_call) c c' :
  aud_wf c -> Forall aud_call_ok ks ->
  aud_run ks c = Done c' ->
  audbuf_used c' = audbuf_used c + aud_total ks /\
  audbuf_nsamples c' = audbuf_nsamples c /\
  0 <= audbuf_used c' <= audbuf_nsamples c'.
Proof.
  intros Hwf Hok Hrun.
  destruct (aud_run_exact ks c c' Hwf Hok Hrun) as (Hu & Hn & _ & _ & Hr).
  auto.
Qed.

Lemma aud_run_accumulates_witness :
  exists c',
    aud_run [Push_sample 1 2; Push_batch [3; 4; 5; 6] 2] (audbuf_setup 1)
      = Done c' /\
    audbuf_used c' = 6.
Proof.
  eexists. split; [vm_compute; reflexivity|].
  refine (proj1 (aud_run_accumulates
                   [Push_sample 1 2; Push_batch [3; 4; 5; 6] 2]
                   (audbuf_setup 1) _ audbuf_setup_wf _ eq_refl)).
  repeat constructor; vm_compute; discriminate.
Defined.

(** X4.  On a consistent accumulator a sequence of producer calls runs to
    the end without a store outside the allocation exactly when the
    samples already held plus the samples pushed do not exceed
    [audbuf_nsamples]. *)
Theorem aud_run_completes_iff_fits (ks : list aud_call) c :
  aud_wf c -> Forall aud_call_ok ks ->
  (exists c', aud_run ks c = Done c') <->
  audbuf_used c + aud_total ks <= audbuf_nsamples c.
Proof.
  intros Hwf Hok. split.
  - intros [c' Hrun].
    destruct (aud_run_exact ks c c' Hwf Hok Hrun) as (Hu & Hn & _ & _ & Hr).
    lia.
  - revert c Hwf. induction Hok as [|k ks Hk Hks IH]; intros c Hwf Hfit.
    + eexists. reflexivity.
    + pose proof (aud_total_nonneg ks Hks) as Hnn.
      unfold aud_total in Hfit. cbn [foldr] in Hfit. fold (aud_total ks) in Hfit.
      destruct (aud_step_fits c k Hwf Hk) as [c1 Hstep]; [lia|].
      destruct (aud_step_exact c k c1 Hwf Hk Hstep) as (Hu1 & Hn1 & Hwf1).
      destruct (IH c1 Hwf1) as [c' Hrun]; [lia|].
      exists c'. cbn [aud_run]. rewrite Hstep. exact Hrun.
Qed.

Lemma aud_run_completes_iff_fits_witness :
  exists c',
    aud_run [Push_sample 1 2; Push_batch [3; 4; 5; 6] 2] (audbuf_setup 1)
      = Done c'.
Proof.
  refine (proj2 (aud_run_completes_iff_fits
                   [Push_sample 1 2; Push_batch [3; 4; 5; 6] 2]
                   (audbuf_setup 1) audbuf_setup_wf _) _).
  - repeat constructor; vm_compute; discriminate.
  - vm_compute. discriminate.
Defined.

Lemma length_interleave ps : length (interleave ps) = (2 * length ps)%nat.
Proof. induction ps as [|p ps IH]; simpl; [reflexivity | rewrite IH; lia]. Qed.

(** The copy of a batch and the stores of the same frames pushed one by
    one, outcome for outcome. *)
Lemma memcpy_as_samples N (ps : list (Z * Z)) : forall u b,
  Z.of_nat (length b) = N -> N < 4294967295 -> 0 <= u <= N ->
  (buf ← audbuf_memcpy u (interleave ps) b;
   Done {| audbuf := buf; audbuf_nsamples := N;
           audbuf_used := (u + 2 * Z.of_nat (length ps)) mod (N + 1) |})
  = aud_run (pushes ps) {| audbuf := b; audbuf_nsamples := N; audbuf_used := u |}.
Proof.
  induction ps as [|[l r] ps IH]; intros u b Hb HN Hu.
  - cbn. rewrite Z.add_0_r, Z.mod_small by lia. reflexivity.
  - cbn [interleave flat_map app fst snd pushes map aud_run aud_step
         audbuf_memcpy].
    unfold libretro_audscb. cbn [audbuf audbuf_used audbuf_nsamples].
    destruct (audbuf_store u l b) as [b1|f] eqn:Hs1; [|reflexivity].
    cbn [mbind outcome_bind].
    apply audbuf_store_done in Hs1 as [Hi1 ->].
    rewrite (RasterSpec.usize_small (u + 1)) by lia.
    destruct (audbuf_store (u + 1) r _) as [b2|f] eqn:Hs2; [|reflexivity].
    cbn [mbind outcome_bind].
    apply audbuf_store_done in Hs2 as [Hi2 ->].
    rewrite length_insert in Hi2.
    rewrite (RasterSpec.usize_small (u + 1 + 1)) by lia.
    replace (u32 (N + 1)) with (N + 1) by (unfold u32; rewrite Z.mod_small; lia).
    rewrite (Z.mod_small (u + 1 + 1)) by lia.
    fold (interleave ps). fold (pushes ps).
    rewrite <- IH by (rewrite ?length_insert; lia).
    replace (u + 1 + 1 + 2 * Z.of_nat (length ps))
      with (u + 2 * Z.of_nat (length ((l, r) :: ps))) by (cbn [length]; lia).
    reflexivity.
Qed.

(** X5.  On a consistent accumulator, one [libretro_audcb] call with the
    interleaved samples of a list of stereo frames has the same outcome as
    one [libretro_audscb] call per frame, in order: the same accumulator
    when the frames fit, and the same first store outside the allocation
    when they do not. *)
Theorem audcb_as_sample_pushes (ps : list (Z * Z)) c :
  aud_wf c -> Z.of_nat (length ps) < 4611686018427387904 ->
  aud_step c (Push_batch (interleave ps) (Z.of_nat (length ps)))
  = aud_run (pushes ps) c.
Proof.
  intros (Hlen & Hn & Hu) Hps. destruct c as [b N u].
  cbn [audbuf audbuf_nsamples audbuf_used] in *.
  rewrite <- (memcpy_as_samples N ps u b) by lia.
  cbn [aud_step]. unfold libretro_audcb.
  cbn [audbuf audbuf_nsamples audbuf_used].
  rewrite (RasterSpec.usize_small (Z.of_nat (length ps) * 2)) by lia.
  rewrite firstn_all2 by (rewrite length_interleave; lia).
  rewrite (RasterSpec.usize_small (u + _)) by lia.
  replace (u32 (N + 1)) with (N + 1) by (unfold u32; rewrite Z.mod_small; lia).
  replace (Z.of_nat (length ps) * 2) with (2 * Z.of_nat (length ps)) by lia.
  destruct (audbuf_memcpy u (interleave ps) b); reflexivity.
Qed.

Lemma audcb_as_sample_pushes_witness :
  aud_step (audbuf_setup 1) (Push_batch [1; 2; 3; 4] 2)
  = aud_run [Push_sample 1 2; Push_sample 3 4] (audbuf_setup 1).
Proof.
  apply (audcb_as_sample_pushes [(1, 2); (3, 4)] (audbuf_setup 1)
           audbuf_setup_wf).
  vm_compute. reflexivity.
Defined.

(** The samples below the cursor after one call: those that were there,
    then those of the call. *)
Lemma aud_step_appends c k c' :
  aud_wf c -> aud_call_ok k -> aud_step c k = Done c' ->
  take (Z.to_nat (audbuf_used c')) (audbuf c')
  = take (Z.to_nat (audbuf_used c)) (audbuf c) ++ aud_call_data k.
Proof.
  intros Hwf Hok Hstep.
  destruct (aud_step_exact c k c' Hwf Hok Hstep) as (Hu' & _ & _).
  rewrite Hu'. destruct Hwf as (Hlen & Hn & Hu).
  destruct k as [data nframes | l r];
    cbn [aud_step aud_call_samples aud_call_data] in *.
  - destruct Hok as [Hnf Hdata].
    unfold libretro_audcb in Hstep.
    rewrite (RasterSpec.usize_small (nframes * 2)) in Hstep by lia.
    destruct (audbuf_memcpy _ _ _) as [buf|f] eqn:Hcp; [|discriminate].
    cbn in Hstep. injection Hstep as <-. cbn [audbuf].
    replace (nframes * 2) with (2 * nframes) in Hcp by lia.
    apply audbuf_memcpy_content in Hcp; [|lia].
    rewrite <- Hcp. f_equal. rewrite length_take. lia.
  - unfold libretro_audscb in Hstep.
    apply bind_done_inv in Hstep as (buf1 & Hs1 & Hstep).
    apply bind_done_inv in Hstep as (buf2 & Hs2 & Hstep).
    injection Hstep as <-. cbn [audbuf].
    assert (Hcp : audbuf_memcpy (audbuf_used c) [l; r] (audbuf c) = Done buf2).
    { cbn [audbuf_memcpy]. rewrite Hs1. cbn [mbind outcome_bind].
      apply audbuf_store_done in Hs1 as [Hi1 _].
      rewrite (RasterSpec.usize_small (audbuf_used c + 1)) in Hs2 by lia.
      rewrite Hs2. reflexivity. }
    apply audbuf_memcpy_content in Hcp; [|lia].
    rewrite <- Hcp. f_equal. cbn [length]. lia.
Qed.

Lemma aud_run_appends (ks : list aud_call) : forall c0 c,
  aud_wf c0 -> Forall aud_call_ok ks ->
  aud_run ks c0 = Done c ->
  take (Z.to_nat (audbuf_used c)) (audbuf c)
  = take (Z.to_nat (audbuf_used c0)) (audbuf c0)
    ++ concat (map aud_call_data ks).
Proof.
  induction ks as [|k ks IH]; intros c0 c Hwf Hok Hrun.
  - simpl in Hrun. injection Hrun as <-. simpl. rewrite app_nil_r. reflexivity.
  - cbn [aud_run] in Hrun. apply bind_done_inv in Hrun as (c1 & Hstep & Hrun).
    inversion Hok as [|? ? Hk Hks]; subst.
    destruct (aud_step_exact c0 k c1 Hwf Hk Hstep) as (_ & _ & Hwf1).
    rewrite (IH c1 c Hwf1 Hks Hrun).
    rewrite (aud_step_appends c0 k c1 Hwf Hk Hstep).
    cbn [map concat]. rewrite app_assoc. reflexivity.
Qed.

(** X6.  Push, then flush: when the producer calls made since the last
    flush all returned, the flush of the main loop publishes exactly the
    samples of those calls, in call order, with [abufused] twice their
    number (bytes), resets [audbuf_used] to 0 and sets [aready]; the
    accumulator is smaller than 2^31 samples, so that the byte count fits
    the 32-bit field. *)
Theorem aud_run_then_flush (ks : list aud_call) c0 c p :
  aud_wf c0 -> audbuf_used c0 = 0 -> Forall aud_call_ok ks ->
  aud_run ks c0 = Done c -> audbuf_nsamples c < 2147483648 ->
  audio_flush c p =
    Done ({| audbuf := audbuf c; audbuf_nsamples := audbuf_nsamples c;
             audbuf_used := 0 |},
          {| w := w p; h := h p; resized := resized p; vready := vready p;
             aready := true |},
          {| abufused := 2 * aud_total ks;
             abuf := concat (map aud_call_data ks) |}).
Proof.
  intros Hwf H0 Hok Hrun Hsmall.
  pose proof (aud_run_appends ks c0 c Hwf Hok Hrun) as Hgen.
  rewrite H0 in Hgen. cbn [Z.to_nat take app] in Hgen.
  destruct (aud_run_exact ks c0 c Hwf Hok Hrun) as (Hu & _ & Hlen & Hn & Hur).
  rewrite H0 in Hu. cbn in Hu.
  unfold audio_flush.
  replace (u32 (2 * audbuf_used c)) with (2 * audbuf_used c)
    by (unfold u32; rewrite Z.mod_small; lia).
  replace (2 * audbuf_used c / 2) with (audbuf_used c)
    by (rewrite Z.mul_comm, Z.div_mul; lia).
  destruct (Z.ltb_spec (Z.of_nat (length (audbuf c))) (audbuf_used c))
    as [Hlt|_]; [lia|].
  rewrite Hgen, Hu. reflexivity.
Qed.

Lemma aud_run_then_flush_witness :
  exists c c' p',
    aud_run [Push_sample 1 2; Push_batch [3; 4] 1] (audbuf_setup 1) = Done c /\
    audio_flush c (shared vidctx_320x240)
      = Done (c', p', {| abufused := 8; abuf := [1; 2; 3; 4] |}).
Proof.
  eexists. eexists. eexists. split; [vm_compute; reflexivity|].
  refine (aud_run_then_flush [Push_sample 1 2; Push_batch [3; 4] 1]
            (audbuf_setup 1) _ (shared vidctx_320x240)
            audbuf_setup_wf eq_refl _ eq_refl _).
  - repeat constructor; vm_compute; discriminate.
  - vm_compute. reflexivity.
Defined.

(** ** Input: from the event label to the core's query *)



(** The entries of the matrix after a store. *)
Lemma joypad_store_entry port button v m m' (p b : nat) :
  joypad_store port button v m = Done m' -> matrix_shape m ->
  joypad_entry p b m' =
    if decide (p = Z.to_nat port /\ b = Z.to_nat button) then Some v
    else joypad_entry p b m.
Proof.
  intros Hst [Hrows Hcols].
  apply joypad_store_inv in Hst as (Hp & Hb & Hj & _).
  unfold joypad_entry. rewrite Hj.
  destruct (decide (p = Z.to_nat port)) as [->|Hne].
  - assert (Hlt : (Z.to_nat port < length (joypad m))%nat)
      by (rewrite Hrows; unfold MAX_PORTS in *; lia).
    destruct (lookup_lt_is_Some_2 _ _ Hlt) as [row Hrow].
    rewrite list_lookup_alter_eq, Hrow.
    cbn [fmap option_fmap option_map mbind option_bind].
    assert (Hlen : length row = Z.to_nat MAX_BUTTONS)
      by (eapply (proj1 (Forall_lookup _ _) Hcols); exact Hrow).
    destruct (decide (b = Z.to_nat button)) as [->|Hnb].
    + rewrite decide_True by auto.
      apply list_lookup_insert_eq. rewrite Hlen. unfold MAX_BUTTONS in *. lia.
    + rewrite decide_False by tauto.
      apply list_lookup_insert_ne. congruence.
  - rewrite list_lookup_alter_ne by congruence.
    rewrite decide_False by tauto. reflexivity.
Qed.

Lemma joypad_store_then_inputstate port button v m m' p ind id wn :
  matrix_shape m ->
  joypad_store port button v m = Done m' ->
  0 <= ind < MAX_PORTS -> 0 <= id < MAX_BUTTONS ->
  libretro_inputstate p RETRO_DEVICE_JOYPAD ind id m' wn =
    if decide (ind = port /\ id = button) then Some (bool_to_int16 v, wn)
    else libretro_inputstate p RETRO_DEVICE_JOYPAD ind id m wn.
Proof.
  intros Hshape Hst Hind Hid.
  pose proof (joypad_store_inv _ _ _ _ _ Hst) as (Hp & Hb & _).
  unfold libretro_inputstate.
  replace (ind <? MAX_PORTS) with true by (symmetry; apply Z.ltb_lt; lia).
  replace (id <? MAX_BUTTONS) with true by (symmetry; apply Z.ltb_lt; lia).
  cbn [negb]. rewrite Z.eqb_refl.
  rewrite (joypad_store_entry _ _ _ _ _ _ _ Hst Hshape).
  destruct (decide (ind = port /\ id = button)) as [[-> ->]|Hne].
  - rewrite decide_True by auto. reflexivity.
  - rewrite decide_False; [reflexivity|].
    intros [H1 H2]. apply Hne. split; lia.
Qed.

Lemma inputmatr_zero_shape : matrix_shape inputmatr_zero.
Proof. split; [reflexivity|]. vm_compute. repeat constructor. Qed.

(** X7.  Store, then query: after [joypad[port][button] = v] on a matrix
    of the declared dimensions, [libretro_inputstate] for the joypad device
    returns [v] (as 0 or 1) at ([port], [button]) and what it returned
    before at every other index that passes its assertions; the query
    changes neither the matrix nor the warning flags. *)
Theorem inputstate_reads_last_store port button v m m' p ind id wn :
  matrix_shape m ->
  joypad_store port button v m = Done m' ->
  0 <= ind < MAX_PORTS -> 0 <= id < MAX_BUTTONS ->
  libretro_inputstate p RETRO_DEVICE_JOYPAD ind id m' wn =
    if decide (ind = port /\ id = button) then Some (bool_to_int16 v, wn)
    else libretro_inputstate p RETRO_DEVICE_JOYPAD ind id m wn.
Proof. apply joypad_store_then_inputstate. Qed.

Lemma inputstate_reads_last_store_witness :
  exists m',
    joypad_store 2 11 true inputmatr_zero = Done m' /\
    libretro_inputstate 0 RETRO_DEVICE_JOYPAD 2 11 m'
      {| warned_mouse := false; warned_lightgun := false |}
    = Some (1, {| warned_mouse := false; warned_lightgun := false |}).
Proof.
  eexists. split; [vm_compute; reflexivity|].
  refine (inputstate_reads_last_store 2 11 true inputmatr_zero _ 0 2 11 _
            inputmatr_zero_shape eq_refl _ _);
    unfold MAX_PORTS, MAX_BUTTONS; lia.
Defined.











End LibretroProps.

(** * Further properties of the raster decoder *)

Module RasterProps.
Import Raster RasterSpec.

(** ** Unpacking *)

Lemma byte_at_range bs i : 0 <= byte_at bs i < 256.
Proof. unfold byte_at, u8. apply Z.mod_pos_bound. lia. Qed.

Lemma le16_at_value bs i :
  le16_at bs i = byte_at bs i + 256 * byte_at bs (i + 1).
Proof.
  unfold le16_at. pose proof (byte_at_range bs i).
  rewrite Z.shiftl_mul_pow2 by lia. rewrite Z.lor_comm.
  rewrite (lor_mul_add _ _ 8) by lia. change (2 ^ 8) with 256. lia.
Qed.

Lemma le16_at_range bs i : 0 <= le16_at bs i < 65536.
Proof.
  rewrite le16_at_value.
  pose proof (byte_at_range bs i). pose proof (byte_at_range bs (i + 1)). lia.
Qed.

(** X11.  [unpack_u32] reads four bytes as a little-endian number: the
    result is [b0 + 2^8 b1 + 2^16 b2 + 2^24 b3] for the four bytes it is
    given, whatever they are, so every 32-bit value has exactly one
    encoding and nothing is lost when the result is stored in the
    [uint32_t]. *)
Theorem unpack_u32_little_endian inbuf :
  unpack_u32 inbuf =
    byte_at inbuf 0 + 256 * byte_at inbuf 1 + 65536 * byte_at inbuf 2
    + 16777216 * byte_at inbuf 3.
Proof.
  unfold unpack_u32.
  pose proof (byte_at_range inbuf 0) as H0. pose proof (byte_at_range inbuf 1) as H1.
  pose proof (byte_at_range inbuf 2) as H2. pose proof (byte_at_range inbuf 3) as H3.
  rewrite Z.shiftl_0_r. rewrite !Z.shiftl_mul_pow2 by lia.
  rewrite (Z.lor_comm (byte_at inbuf 0)).
  rewrite (lor_mul_add _ (byte_at inbuf 0) 8) by lia.
  rewrite (Z.lor_comm _ (byte_at inbuf 2 * 2 ^ 16)).
  rewrite (lor_mul_add _ _ 16) by lia.
  rewrite (Z.lor_comm _ (byte_at inbuf 3 * 2 ^ 24)).
  rewrite (lor_mul_add _ _ 24) by lia.
  unfold u32. rewrite Z.mod_small by lia. lia.
Qed.

(** ** The right edge of the rectangle *)

Section X2Bound.
Variables (pitch max_w max_h alpha : Z) (bgc : shmif_pixel) (update : bool).

Lemma cells_loop_x2 (n : nat) :
  forall draw_y buf buf_sz draw_x s buf' buf_sz' s',
  x2 s <= max_w ->
  cells_loop pitch max_w max_h alpha n draw_y buf buf_sz draw_x s
    = Done (buf', buf_sz', s') ->
  x2 s' <= max_w.
Proof.
  induction n as [|n IH];
    intros draw_y buf buf_sz draw_x s buf' buf_sz' s' Hs Hrun.
  - simpl in Hrun. injection Hrun as <- <- <-. exact Hs.
  - cbn [cells_loop] in Hrun.
    destruct (buf_sz <? raster_cell_sz);
      [injection Hrun as <- <- <-; exact Hs|].
    apply bind_done_inv in Hrun as (bytes & _ & Hrun).
    destruct (has_attr _ CATTR_SKIP); [eapply IH; eassumption|].
    destruct (_ && _); [|eapply IH; eassumption].
    pose proof (drawglyph_frame (unpack_cell bytes alpha) pitch
                  (to_int draw_x) (to_int draw_y) max_w max_h s)
      as (_ & _ & _ & Hx2 & _).
    destruct (drawglyph _ _ _ _ _ _ _) as [adv s1]. cbn [snd] in *.
    eapply IH; [|exact Hrun].
    destruct (_ && _) eqn:Hc.
    + apply andb_true_iff in Hc as [_ Hle]. apply Z.leb_le in Hle. exact Hle.
    + rewrite Hx2. exact Hs.
Qed.

Lemma line_head_x2 line cur_y last_line s :
  x2 (snd (line_head pitch max_w max_h bgc update line cur_y last_line s)) = x2 s.
Proof.
  unfold line_head.
  repeat match goal with
  | |- context [if ?b then _ else _] => destruct b
  end; reflexivity.
Qed.

Lemma lines_loop_x2 (lines : nat) :
  forall buf buf_sz cur_y last_line s r s',
  x2 s <= max_w ->
  lines_loop pitch max_w max_h alpha bgc update lines buf buf_sz
    cur_y last_line s = Done (r, s') ->
  x2 s' <= max_w.
Proof.
  assert (Hfin : forall ll s r s', x2 s <= max_w ->
            Done (tobuf_finish update ll s) = Done (r, s') -> x2 s' <= max_w).
  { intros ll s r s' Hs. unfold tobuf_finish.
    destruct update; intros [= _ <-]; exact Hs. }
  induction lines as [|lines IH];
    intros buf buf_sz cur_y last_line s r s' Hs Hrun.
  - cbn [lines_loop] in Hrun. eapply Hfin; eassumption.
  - cbn [lines_loop] in Hrun.
    destruct (buf_sz =? 0); [eapply Hfin; eassumption|].
    destruct (buf_sz <? raster_line_sz); [injection Hrun as <- <-; exact Hs|].
    apply bind_done_inv in Hrun as (bytes & _ & Hrun).
    pose proof (line_head_x2 (line_of_bytes bytes) cur_y last_line s) as Hhead.
    destruct (line_head _ _ _ _ _ _ _ _ _) as [[[[ll cy] dy] dx] s1].
    cbn [snd] in Hhead.
    apply bind_done_inv in Hrun as ([[buf1 sz1] s2] & Hcells & Hrun).
    eapply IH; [|exact Hrun].
    eapply cells_loop_x2; [|eassumption]. rewrite Hhead. exact Hs.
Qed.

End X2Bound.

Lemma lines_loop_result pitch max_w max_h alpha bgc update (lines : nat) :
  forall buf buf_sz cur_y last_line s r s',
  lines_loop pitch max_w max_h alpha bgc update lines buf buf_sz
    cur_y last_line s = Done (r, s') ->
  r = -1 \/ r = 1.
Proof.
  induction lines as [|lines IH];
    intros buf buf_sz cur_y last_line s r s' Hrun.
  - simpl in Hrun. injection Hrun as <- _. now right.
  - cbn [lines_loop] in Hrun.
    destruct (buf_sz =? 0); [injection Hrun as <- _; now right|].
    destruct (buf_sz <? raster_line_sz); [injection Hrun as <- _; now left|].
    apply bind_done_inv in Hrun as (bytes & _ & Hrun).
    destruct (line_head _ _ _ _ _ _ _ _ _) as [[[[ll cy] dy] dx] s1].
    apply bind_done_inv in Hrun as ([[buf1 sz1] s2] & _ & Hrun).
    eapply IH; exact Hrun.
Qed.

Lemma raster_tobuf_result pitch max_w max_h buf buf_sz s r s' :
  raster_tobuf pitch max_w max_h buf buf_sz s = Done (r, s') ->
  r = -1 \/ r = 1.
Proof.
  unfold raster_tobuf.
  destruct ((buf_sz =? 0) || (buf_sz <? raster_hdr_sz));
    [intros [= <- _]; now left|].
  intros Hrun. apply bind_done_inv in Hrun as (bytes & _ & Hrun).
  destruct (_ || _); [injection Hrun as <- _; now left|].
  eapply lines_loop_result; exact Hrun.
Qed.

Lemma raster_tobuf_x2_bound pitch max_w max_h buf buf_sz s s' :
  0 <= max_w ->
  raster_tobuf pitch max_w max_h buf buf_sz s = Done (1, s') ->
  x2 s' <= max_w.
Proof.
  intros Hw. unfold raster_tobuf.
  destruct ((buf_sz =? 0) || (buf_sz <? raster_hdr_sz)); [discriminate|].
  intros Hrun. apply bind_done_inv in Hrun as (bytes & _ & Hrun).
  destruct (_ || _); [discriminate|].
  eapply lines_loop_x2; [|exact Hrun].
  destruct (negb _); cbn; [exact Hw | apply u16_le; exact Hw].
Qed.

(** X13.  [tui_raster_render] with a font in slot 0 either returns -1
    without reaching [arcan_shmif_dirty], or returns 1 after an accepted
    decode and passes the decoder's four outputs on unchanged: the decoder
    never leaves [x2] above the destination width, so the clamp
    [if (x2 > dst->w) x2 = dst->w] never changes it. *)
Theorem render_reports_decoder_rect pitch w h buf buf_sz s r s' d :
  0 <= w ->
  tui_raster_render true pitch w h buf buf_sz s = Done (r, s', d) ->
  (r = -1 /\ d = None) \/
  (r = 1 /\ raster_tobuf pitch w h buf buf_sz s = Done (1, s') /\
   x2 s' <= w /\ d = Some (x1 s', y1 s', x2 s', y2 s')).
Proof.
  intros Hw. unfold tui_raster_render. cbn [negb orb].
  destruct (buf_sz <? raster_hdr_sz); [intros [= <- <- <-]; left; auto|].
  intros Hrun. apply bind_done_inv in Hrun as ([r0 s0] & Htobuf & Hrun).
  destruct (r0 =? -1) eqn:Hr0; [injection Hrun as <- <- <-; left; auto|].
  injection Hrun as <- <- <-. right.
  assert (Hr1 : r0 = 1).
  { apply raster_tobuf_result in Htobuf as Hr. apply Z.eqb_neq in Hr0. lia. }
  subst r0.
  pose proof (raster_tobuf_x2_bound _ _ _ _ _ _ _ Hw Htobuf) as Hx2.
  repeat split; [exact Htobuf | exact Hx2 |].
  replace (x2 s0 >? w) with false; [reflexivity|].
  symmetry. rewrite Z.gtb_ltb. apply Z.ltb_ge. exact Hx2.
Qed.

Lemma render_reports_decoder_rect_witness :
  0 <= 640 /\
  exists s',
    tui_raster_render true 640 640 480 buf_one_cell_5_3 32 state_8x16
      = Done (1, s', Some (24, 80, 40, 96)).
Proof.
  split; [lia|]. eexists.
  assert (Hrun : tui_raster_render true 640 640 480 buf_one_cell_5_3 32
                   state_8x16
                 = Done (1, _, Some (24, 80, 40, 96)))
    by (vm_compute; reflexivity).
  destruct (render_reports_decoder_rect 640 640 480 buf_one_cell_5_3 32
              state_8x16 _ _ _ ltac:(lia) Hrun) as [[H _]|_];
    [discriminate H | exact Hrun].
Defined.

(** ** Invariants of the decoder loops

    A property of the state that every state change of the loops keeps is
    kept by the loops. *)

Section StateInvariant.
Variable P : rstate -> Prop.
Hypothesis P_drawglyph : forall cl pitch x y maxx maxy s,
  P s -> P (snd (drawglyph cl pitch x y maxx maxy s)).
Hypothesis P_x1 : forall v s, P s -> P (set_x1 v s).
Hypothesis P_y1 : forall v s, P s -> P (set_y1 v s).
Hypothesis P_x2 : forall v s, P s -> P (set_x2 v s).
Hypothesis P_y2 : forall v s, P s -> P (set_y2 v s).
Hypothesis P_box : forall pitch mw mh x y w h col s,
  P s -> P (emit (Call_draw_box_px pitch mw mh x y w h col) s).

Variables (pitch max_w max_h alpha : Z) (bgc : shmif_pixel) (update : bool).

Lemma cells_loop_invariant (n : nat) :
  forall draw_y buf buf_sz draw_x s buf' buf_sz' s',
  P s ->
  cells_loop pitch max_w max_h alpha n draw_y buf buf_sz draw_x s
    = Done (buf', buf_sz', s') ->
  P s'.
Proof.
  induction n as [|n IH];
    intros draw_y buf buf_sz draw_x s buf' buf_sz' s' Hs Hrun.
  - simpl in Hrun. injection Hrun as <- <- <-. exact Hs.
  - cbn [cells_loop] in Hrun.
    destruct (buf_sz <? raster_cell_sz);
      [injection Hrun as <- <- <-; exact Hs|].
    apply bind_done_inv in Hrun as (bytes & _ & Hrun).
    destruct (has_attr _ CATTR_SKIP); [eapply IH; eassumption|].
    destruct (_ && _); [|eapply IH; eassumption].
    pose proof (P_drawglyph (unpack_cell bytes alpha) pitch
                  (to_int draw_x) (to_int draw_y) max_w max_h s Hs) as Hg.
    destruct (drawglyph _ _ _ _ _ _ _) as [adv s1]. cbn [snd] in *.
    eapply IH; [|exact Hrun].
    destruct (_ && _); [apply P_x2|]; exact Hg.
Qed.

Lemma line_head_invariant line cur_y last_line s :
  P s -> P (snd (line_head pitch max_w max_h bgc update line cur_y last_line s)).
Proof.
  intros Hs. unfold line_head.
  repeat match goal with
  | |- context [if ?b then _ else _] => destruct b
  end; cbn [snd]; auto.
Qed.

Lemma lines_loop_invariant (lines : nat) :
  forall buf buf_sz cur_y last_line s r s',
  P s ->
  lines_loop pitch max_w max_h alpha bgc update lines buf buf_sz
    cur_y last_line s = Done (r, s') ->
  P s'.
Proof.
  assert (Hfin : forall ll s r s', P s ->
            Done (tobuf_finish update ll s) = Done (r, s') -> P s').
  { intros ll s r s' Hs. unfold tobuf_finish.
    destruct update; intros [= _ <-]; auto. }
  induction lines as [|lines IH];
    intros buf buf_sz cur_y last_line s r s' Hs Hrun.
  - cbn [lines_loop] in Hrun. eapply Hfin; eassumption.
  - cbn [lines_loop] in Hrun.
    destruct (buf_sz =? 0); [eapply Hfin; eassumption|].
    destruct (buf_sz <? raster_line_sz); [injection Hrun as <- <-; exact Hs|].
    apply bind_done_inv in Hrun as (bytes & _ & Hrun).
    pose proof (line_head_invariant (line_of_bytes bytes) cur_y last_line s Hs)
      as Hhead.
    destruct (line_head _ _ _ _ _ _ _ _ _) as [[[[ll cy] dy] dx] s1].
    cbn [snd] in Hhead.
    apply bind_done_inv in Hrun as ([[buf1 sz1] s2] & Hcells & Hrun).
    eapply IH; [|exact Hrun].
    eapply cells_loop_invariant; eassumption.
Qed.

End StateInvariant.

Lemma drawglyph_same_setup c0 cl pitch x y maxx maxy s :
  same_setup c0 (ctx s) ->
  same_setup c0 (ctx (snd (drawglyph cl pitch x y maxx maxy s))).
Proof.
  intros (H1 & H2 & H3 & H4 & H5 & H6).
  unfold drawglyph, line_marks, linehint. rewrite H1.
  destruct (vector (fonts0 c0)) eqn:Hv; cbn [negb].
  - repeat match goal with
    | |- context [if ?b then _ else _] => destruct b
    end; cbn; repeat split; auto; intros Hf; congruence.
  - repeat match goal with
    | |- context [if ?b then _ else _] => destruct b
    end; cbn; repeat split; auto.
Qed.

(** X12.  Whatever the buffer holds, a call of [raster_tobuf] that returns
    leaves the fonts, the cursor color and the cell size of the context as
    they were, and with a bitmap font in slot 0 also the cached style; when
    it returns 1 the cursor state of the context is the one of the
    header. *)
Theorem raster_tobuf_keeps_setup pitch max_w max_h buf buf_sz s r s' :
  raster_tobuf pitch max_w max_h buf buf_sz s = Done (r, s') ->
  same_setup (ctx s) (ctx s') /\
  (r = 1 ->
   cursor_state (ctx s') =
     hdr_cursor_state (header_of_bytes (take (Z.to_nat raster_hdr_sz) buf))).
Proof.
  assert (Hrefl : same_setup (ctx s) (ctx s)) by (repeat split; reflexivity).
  unfold raster_tobuf.
  destruct ((buf_sz =? 0) || (buf_sz <? raster_hdr_sz));
    [intros [= <- <-]; split; [exact Hrefl | discriminate]|].
  intros Hrun. apply bind_done_inv in Hrun as (bytes & Hread & Hrun).
  unfold memcpy_from in Hread.
  destruct (Z.of_nat (length buf) <? raster_hdr_sz); [discriminate|].
  injection Hread as <-.
  set (hdr := header_of_bytes (take (Z.to_nat raster_hdr_sz) buf)) in *.
  destruct (_ || _); [injection Hrun as <- <-; split; [exact Hrefl | discriminate]|].
  pose (P := fun st : rstate => same_setup (ctx s) (ctx st) /\
                 cursor_state (ctx st) = hdr_cursor_state hdr).
  assert (HP : P s').
  { eapply (lines_loop_invariant P); [| | | | | | |exact Hrun]; unfold P.
    - intros cl p x y mx my st [Hs Hc]. split; [apply drawglyph_same_setup; exact Hs|].
      rewrite <- Hc. unfold drawglyph, line_marks, linehint.
      repeat match goal with
      | |- context [if ?b then _ else _] => destruct b
      end; reflexivity.
    - intros v st H; exact H.
    - intros v st H; exact H.
    - intros v st H; exact H.
    - intros v st H; exact H.
    - intros; assumption.
    - destruct (negb _); cbn; (split; [|reflexivity]);
        destruct Hrefl as (H1 & H2 & H3 & H4 & H5 & H6); repeat split; auto. }
  destruct HP as [H1 H2]. split; [exact H1 | intros _; exact H2].
Qed.

Lemma raster_tobuf_keeps_setup_witness :
  exists s',
    raster_tobuf 640 640 480 buf_no_lines 14 state_8x16 = Done (1, s') /\
    same_setup ctx_8x16 (ctx s') /\ cursor_state (ctx s') = 1.
Proof.
  eexists. split; [vm_compute; reflexivity|].
  assert (Hrun : raster_tobuf 640 640 480 buf_no_lines 14 state_8x16
                 = Done (1, _)) by (vm_compute; reflexivity).
  destruct (raster_tobuf_keeps_setup 640 640 480 buf_no_lines 14 state_8x16
              1 _ Hrun) as [H1 H2].
  split; [exact H1 | exact (H2 eq_refl)].
Defined.

(** ** Where glyphs are drawn *)

Lemma to_int_small z : 0 <= z < 2147483648 -> to_int z = z.
Proof.
  intros Hz. unfold to_int, u32, INT_MAX. rewrite Z.mod_small by lia.
  replace (z <=? 2147483647) with true by (symmetry; apply Z.leb_le; lia).
  reflexivity.
Qed.

Lemma appended_refl P v : appended P v v.
Proof. exists []. rewrite app_nil_r. split; [reflexivity | constructor]. Qed.

Lemma appended_emit P v d l :
  appended P v l -> P d -> appended P v (l ++ [d]).
Proof.
  intros (calls & Hv & HP) Hd. exists (calls ++ [d]).
  rewrite Hv, app_assoc. split; [reflexivity|].
  apply Forall_app. split; [exact HP | repeat constructor; exact Hd].
Qed.

Section GlyphsInside.
Variables (pitch max_w max_h cw ch : Z) (v0 : list draw_call).
Hypothesis pitch_range : 0 <= pitch < 4294967296.
Hypothesis max_w_int : max_w <= 2147483648.
Hypothesis max_h_int : max_h <= 2147483648.
Hypothesis cw_range : 0 <= cw < 4294967296.
Hypothesis ch_range : 0 <= ch < 4294967296.

Let P := glyph_inside cw ch max_w max_h.
Let good (s : rstate) : Prop :=
  cell_w (ctx s) = cw /\ cell_h (ctx s) = ch /\ appended P v0 (vidp s).

Lemma line_marks_good cl x y s :
  good s -> good (line_marks cl pitch x y max_w max_h s).
Proof.
  intros (Hw & Hh & Hv). unfold line_marks, linehint.
  repeat match goal with
  | |- context [if ?b then _ else _] => destruct b
  end; repeat split; cbn [ctx emit vidp]; try assumption;
  repeat (apply appended_emit; [|exact I]); exact Hv.
Qed.

Lemma drawglyph_good cl x y s :
  good s ->
  0 <= x -> x + cw < max_w -> 0 <= y -> y + ch < max_h ->
  good (snd (drawglyph cl pitch x y max_w max_h s)).
Proof.
  intros (Hw & Hh & Hv) Hx0 Hx1 Hy0 Hy1.
  assert (Hin : 0 <= x /\ x + cw < max_w /\ 0 <= y /\ y + ch < max_h)
    by (repeat split; assumption).
  assert (Hofs : usize (y * pitch + x) = y * pitch + x)
    by (apply usize_small; nia).
  unfold drawglyph.
  destruct (negb (vector (fonts0 (ctx s)))); cbn [snd].
  - apply line_marks_good. repeat split; cbn [ctx emit vidp]; try assumption.
    apply appended_emit; [exact Hv | exact Hin].
  - destruct (ucs4 cl =? 0); cbn [snd].
    + repeat split; cbn [ctx emit vidp]; try assumption.
      apply appended_emit; [exact Hv | exact I].
    + apply line_marks_good.
      rewrite Hw, Hh, Hofs.
      repeat match goal with
      | |- context [if ?b then _ else _] => destruct b
      end; repeat split; cbn [ctx emit set_ctx set_last_style cell_w cell_h vidp];
      try assumption;
      (apply appended_emit;
       [repeat (apply appended_emit; [|exact I]); exact Hv
       |cbn; split; [reflexivity|]; split; [reflexivity|];
        exists x, y; split; [reflexivity | exact Hin]]).
Qed.

Lemma cells_loop_good alpha (n : nat) :
  forall draw_y buf buf_sz draw_x s buf' buf_sz' s',
  good s ->
  0 <= draw_x -> draw_x + Z.of_nat n * cw < 9223372036854775808 ->
  0 <= draw_y < 9223372036854775808 ->
  cells_loop pitch max_w max_h alpha n draw_y buf buf_sz draw_x s
    = Done (buf', buf_sz', s') ->
  good s'.
Proof.
  induction n as [|n IH];
    intros draw_y buf buf_sz draw_x s buf' buf_sz' s' Hs Hx0 Hxn Hy Hrun.
  - simpl in Hrun. injection Hrun as <- <- <-. exact Hs.
  - cbn [cells_loop] in Hrun.
    destruct (buf_sz <? raster_cell_sz);
      [injection Hrun as <- <- <-; exact Hs|].
    apply bind_done_inv in Hrun as (bytes & _ & Hrun).
    pose proof Hs as (Hw & Hh & Hv). rewrite Hw, Hh in Hrun.
    assert (Hux : usize (draw_x + cw) = draw_x + cw) by (apply usize_small; lia).
    assert (Huy : usize (draw_y + ch) = draw_y + ch) by (apply usize_small; lia).
    rewrite Hux, Huy in Hrun.
    destruct (has_attr _ CATTR_SKIP);
      [eapply IH; [exact Hs| | |exact Hy|exact Hrun]; lia|].
    destruct (_ && _) eqn:Hguard;
      [|eapply IH; [exact Hs| | |exact Hy|exact Hrun]; lia].
    apply andb_true_iff in Hguard as [Hgx Hgy].
    apply Z.ltb_lt in Hgx. apply Z.ltb_lt in Hgy.
    rewrite (to_int_small draw_x), (to_int_small draw_y) in Hrun by lia.
    pose proof (drawglyph_good (unpack_cell bytes alpha) draw_x draw_y s Hs
                  Hx0 Hgx ltac:(lia) Hgy) as Hg.
    pose proof (drawglyph_frame (unpack_cell bytes alpha) pitch
                  draw_x draw_y max_w max_h s) as (Hadv & _).
    destruct (drawglyph _ _ _ _ _ _ _) as [adv s1]. cbn [fst snd] in *.
    rewrite Hadv, Hw, Hux in Hrun.
    eapply IH; [| | |exact Hy|exact Hrun]; [|lia|lia].
    destruct (_ && _); [|exact Hg].
    destruct Hg as (H1 & H2 & H3). repeat split; assumption.
Qed.

Lemma line_head_good bgc update line cur_y last_line s :
  good s ->
  good (snd (line_head pitch max_w max_h bgc update line cur_y last_line s)).
Proof.
  intros (Hw & Hh & Hv). unfold line_head.
  repeat match goal with
  | |- context [if ?b then _ else _] => destruct b
  end; cbn [snd]; repeat split;
  cbn [ctx emit vidp set_x1 set_y1 cell_w cell_h]; try assumption;
  try (apply appended_emit; [exact Hv | exact I]).
Qed.

Lemma line_head_position bgc update line cur_y last_line s :
  let '(_, _, dy, dx, _) :=
    line_head pitch max_w max_h bgc update line cur_y last_line s in
  dy = usize (start_line line * cell_h (ctx s)) /\
  dx = usize (offset line * cell_w (ctx s)).
Proof.
  unfold line_head.
  destruct (update && (cur_y =? -1));
    (destruct (cur_y =? start_line line) eqn:Heq; cbn [negb];
     [apply Z.eqb_eq in Heq; subst cur_y|]);
    repeat match goal with
    | |- context [if ?b then _ else _] => destruct b
    end; split; reflexivity.
Qed.

Lemma lines_loop_good alpha bgc update (lines : nat) :
  forall buf buf_sz cur_y last_line s r s',
  good s ->
  lines_loop pitch max_w max_h alpha bgc update lines buf buf_sz
    cur_y last_line s = Done (r, s') ->
  good s'.
Proof.
  assert (Hfin : forall ll s r s', good s ->
            Done (tobuf_finish update ll s) = Done (r, s') -> good s').
  { intros ll s r s' Hs. unfold tobuf_finish.
    destruct update; intros [= _ <-]; [|exact Hs].
    destruct Hs as (H1 & H2 & H3). repeat split; assumption. }
  induction lines as [|lines IH];
    intros buf buf_sz cur_y last_line s r s' Hs Hrun.
  - cbn [lines_loop] in Hrun. eapply Hfin; eassumption.
  - cbn [lines_loop] in Hrun.
    destruct (buf_sz =? 0); [eapply Hfin; eassumption|].
    destruct (buf_sz <? raster_line_sz); [injection Hrun as <- <-; exact Hs|].
    apply bind_done_inv in Hrun as (bytes & _ & Hrun).
    set (line := line_of_bytes bytes) in *.
    pose proof (line_head_good bgc update line cur_y last_line s Hs) as Hhead.
    pose proof (line_head_position bgc update line cur_y last_line s) as Hpos.
    destruct (line_head _ _ _ _ _ _ _ _ _) as [[[[ll cy] dy] dx] s1].
    cbn [snd] in Hhead. destruct Hpos as [-> ->].
    apply bind_done_inv in Hrun as ([[buf1 sz1] s2] & Hcells & Hrun).
    eapply IH; [|exact Hrun].
    destruct Hs as (Hw & Hh & _). rewrite Hw, Hh in Hcells.
    assert (Hsl : 0 <= start_line line < 65536) by apply le16_at_range.
    assert (Hof : 0 <= offset line < 65536) by apply le16_at_range.
    assert (Hnc : 0 <= ncells line < 65536) by apply le16_at_range.
    rewrite (usize_small (start_line line * ch)) in Hcells by nia.
    rewrite (usize_small (offset line * cw)) in Hcells by nia.
    eapply cells_loop_good; [exact Hhead| | | |exact Hcells].
    + nia.
    + rewrite Z2Nat.id by lia. nia.
    + nia.
Qed.

End GlyphsInside.

(** X15.  For a destination whose dimensions fit an [int] and a cell size
    and pitch that fit 32 bits, every glyph that a call of [raster_tobuf]
    draws, whatever the buffer holds and whether it is accepted or not,
    lies inside the destination: the calls are appended to the log, each
    bitmap-font call is at a position with [0 <= x], [x + cell_w < max_w],
    [0 <= y] and [y + cell_h < max_h], and each TrueType call is given the
    offset [y * pitch + x] of such a position.  No position wraps around
    on the way from the 16-bit line fields to the [int] arguments. *)
Theorem glyphs_inside_destination pitch max_w max_h buf buf_sz s r s' :
  0 <= pitch < 4294967296 ->
  max_w <= 2147483648 -> max_h <= 2147483648 ->
  0 <= cell_w (ctx s) < 4294967296 ->
  0 <= cell_h (ctx s) < 4294967296 ->
  raster_tobuf pitch max_w max_h buf buf_sz s = Done (r, s') ->
  appended (glyph_inside (cell_w (ctx s)) (cell_h (ctx s)) max_w max_h)
    (vidp s) (vidp s').
Proof.
  intros Hp Hmw Hmh Hcw Hch. unfold raster_tobuf.
  destruct ((buf_sz =? 0) || (buf_sz <? raster_hdr_sz));
    [intros [= _ <-]; apply appended_refl|].
  intros Hrun. apply bind_done_inv in Hrun as (bytes & _ & Hrun).
  destruct (_ || _); [injection Hrun as _ <-; apply appended_refl|].
  eapply (lines_loop_good pitch max_w max_h (cell_w (ctx s)) (cell_h (ctx s))
            (vidp s) Hp Hmw Hmh Hcw Hch) in Hrun.
  - destruct Hrun as (_ & _ & H). exact H.
  - destruct (negb _); cbn; repeat split; apply appended_refl.
Qed.

Lemma glyphs_inside_destination_witness :
  exists s',
    raster_tobuf 640 640 480 buf_one_cell_5_3 32 state_8x16 = Done (1, s') /\
    appended (glyph_inside 8 16 640 480) [] (vidp s').
Proof.
  eexists. split; [vm_compute; reflexivity|].
  refine (glyphs_inside_destination 640 640 480 buf_one_cell_5_3 32
            state_8x16 1 _ _ _ _ _ _ _);
    try (cbn [ctx state_8x16 cell_w cell_h ctx_8x16]; lia).
  vm_compute. reflexivity.
Defined.

(** ** Underline and strike-through *)

Lemma lor_1_cases a : 0 <= a -> Z.lor a 1 = a \/ Z.lor a 1 = a + 1.
Proof.
  intros Ha.
  pose proof (Z.div_mod a 2 ltac:(lia)) as Hdm.
  pose proof (Z.mod_pos_bound a 2 ltac:(lia)) as Hm.
  assert (Hk : Z.lor (a / 2 * 2 ^ 1) 1 = a / 2 * 2 ^ 1 + 1)
    by (apply lor_mul_add; lia).
  change (2 ^ 1) with 2 in Hk.
  destruct (Z.eq_dec (a mod 2) 0) as [H0|H1].
  - right. replace a with (a / 2 * 2) at 1 by lia. lia.
  - left. replace a with (a / 2 * 2 + 1) at 1 by lia.
    rewrite <- Hk at 1. rewrite <- Z.lor_assoc. change (Z.lor 1 1) with 1. lia.
Qed.

Lemma linehint_bars cl pitch x y maxx maxy st ul s :
  1 <= cell_h (ctx s) < 2147483648 ->
  0 <= y < 2147483648 ->
  exists bars,
    vidp (linehint cl pitch x y maxx maxy st ul s) = vidp s ++ bars /\
    Forall (bar_inside x y (cell_w (ctx s)) (cell_h (ctx s))) bars /\
    length bars = ((if ul then 1 else 0) + (if st then 1 else 0))%nat /\
    ctx (linehint cl pitch x y maxx maxy st ul s) = ctx s /\
    x1 (linehint cl pitch x y maxx maxy st ul s) = x1 s /\
    y1 (linehint cl pitch x y maxx maxy st ul s) = y1 s.
Proof.
  intros Hch Hy.
  set (h := cell_h (ctx s)) in *.
  set (n := Z.lor (scale_005 h) 1).
  assert (Hq : 0 <= h / 20 /\ 20 * (h / 20) <= h).
  { pose proof (Z.div_mod h 20 ltac:(lia)).
    pose proof (Z.mod_pos_bound h 20 ltac:(lia)). split; [apply Z.div_pos|]; lia. }
  assert (Hn : 1 <= n <= h).
  { unfold n, scale_005.
    assert (Hbit : Z.lor (h / 20) 1 <> 0).
    { intros H0. apply Z.lor_eq_0_iff in H0 as [_ H1]. discriminate. }
    assert (Hnn : 0 <= Z.lor (h / 20) 1) by (apply Z.lor_nonneg; lia).
    destruct (lor_1_cases (h / 20) ltac:(lia)) as [Hc|Hc]; lia. }
  assert (Hhalf : 0 <= Z.shiftr n 1 /\ 2 * Z.shiftr n 1 <= n /\
                  n <= 2 * Z.shiftr n 1 + 1).
  { rewrite Z.shiftr_div_pow2 by lia. change (2 ^ 1) with 2.
    pose proof (Z.div_mod n 2 ltac:(lia)).
    pose proof (Z.mod_pos_bound n 2 ltac:(lia)). lia. }
  assert (Hhh : 2 * Z.shiftr h 1 <= h /\ h <= 2 * Z.shiftr h 1 + 1).
  { rewrite Z.shiftr_div_pow2 by lia. change (2 ^ 1) with 2.
    pose proof (Z.div_mod h 2 ltac:(lia)).
    pose proof (Z.mod_pos_bound h 2 ltac:(lia)). lia. }
  assert (Hu : usize (y + h - n) = y + h - n) by (apply usize_small; lia).
  assert (Hs : usize (y + Z.shiftr h 1 - Z.shiftr n 1)
               = y + Z.shiftr h 1 - Z.shiftr n 1) by (apply usize_small; lia).
  unfold linehint. fold h. fold n. cbn [ctx emit]. fold h. rewrite Hu, Hs.
  exists ((if ul then [Call_draw_box_px pitch maxx maxy x (y + h - n)
                          (cell_w (ctx s)) n (fc cl)] else []) ++
          (if st then [Call_draw_box_px pitch maxx maxy x
                          (y + Z.shiftr h 1 - Z.shiftr n 1)
                          (cell_w (ctx s)) n (fc cl)] else [])).
  destruct ul, st; cbn [vidp emit ctx app x1 y1];
    (split; [rewrite <- ?app_assoc, ?app_nil_r; reflexivity|]);
    (split; [repeat constructor; cbn; lia | repeat split; reflexivity]).
Qed.

(** X16.  For a cell at least one pixel high, the underline and the
    strike-through drawn by [linehint] are boxes of the cell's width at the
    cell's column, at least one pixel thick, and they lie between the top
    and the bottom row of the cell; there is one box per requested mark,
    the underline first, and the context is not touched. *)
Theorem linehint_bars_inside cl pitch x y maxx maxy st ul s :
  1 <= cell_h (ctx s) < 2147483648 ->
  0 <= y < 2147483648 ->
  exists bars,
    vidp (linehint cl pitch x y maxx maxy st ul s) = vidp s ++ bars /\
    Forall (bar_inside x y (cell_w (ctx s)) (cell_h (ctx s))) bars /\
    length bars = ((if ul then 1 else 0) + (if st then 1 else 0))%nat /\
    ctx (linehint cl pitch x y maxx maxy st ul s) = ctx s.
Proof.
  intros Hch Hy.
  destruct (linehint_bars cl pitch x y maxx maxy st ul s Hch Hy)
    as (bars & H1 & H2 & H3 & H4 & _).
  exists bars. auto.
Qed.

Lemma linehint_bars_inside_witness :
  exists bars,
    vidp (linehint cell_marked 640 24 80 640 480 true true state_8x16)
      = [] ++ bars /\
    Forall (bar_inside 24 80 8 16) bars /\ length bars = 2%nat.
Proof.
  destruct (linehint_bars_inside cell_marked 640 24 80 640 480 true true
              state_8x16) as (bars & H1 & H2 & H3 & _); [cbn; lia | lia |].
  exists bars. split; [exact H1|]. split; [exact H2 | exact H3].
Defined.

(** X17.  A buffer whose header passes the size check and declares no line
    is accepted and nothing is drawn.  In full-frame mode the rectangle is
    the whole destination; in dirty-frame mode it is
    [x1 = max_w], [y1 = max_h], [x2 = 0], [y2 = cell_h] (each as stored in
    the 16-bit output): the corners are not ordered, and [y2] is one row
    down although no row was drawn. *)
Theorem frame_without_lines pitch max_w max_h buf buf_sz s :
  let hdr := header_of_bytes (take (Z.to_nat raster_hdr_sz) buf) in
  raster_hdr_sz <= Z.of_nat (length buf) ->
  size_check hdr buf_sz ->
  hdr_lines hdr = 0 ->
  raster_tobuf pitch max_w max_h buf buf_sz s =
    Done (1,
      if Z.land (hdr_flags hdr) RPACK_DFRAME =? 0
      then {| x1 := 0; y1 := 0; x2 := u16 max_w; y2 := u16 max_h;
              ctx := set_cursor_state (hdr_cursor_state hdr) (ctx s);
              vidp := vidp s |}
      else {| x1 := u16 max_w; y1 := u16 max_h; x2 := 0;
              y2 := u16 (usize (cell_h (ctx s)));
              ctx := set_cursor_state (hdr_cursor_state hdr) (ctx s);
              vidp := vidp s |}).
Proof.
  intros hdr Hmem (Hge & Hle & Heq) Hlines. unfold raster_tobuf.
  replace ((buf_sz =? 0) || (buf_sz <? raster_hdr_sz)) with false.
  2:{ symmetry. apply orb_false_iff.
      split; [apply Z.eqb_neq | apply Z.ltb_ge]; unfold raster_hdr_sz in *; lia. }
  rewrite memcpy_from_enough by lia. cbn [mbind outcome_bind]. fold hdr.
  replace ((hdr_data_sz hdr >? buf_sz) || _) with false.
  2:{ symmetry. apply orb_false_iff. split.
      - rewrite Z.gtb_ltb. apply Z.ltb_ge. lia.
      - apply negb_false_iff, Z.eqb_eq. exact Heq. }
  rewrite Hlines. change (Z.to_nat 0) with 0%nat. cbn [lines_loop].
  unfold tobuf_finish.
  destruct (Z.land (hdr_flags hdr) RPACK_DFRAME =? 0); cbn [negb];
    unfold set_x1, set_y1, set_x2, set_y2, set_ctx, set_cursor_state;
    cbn [x1 y1 x2 y2 ctx vidp cell_h]; [reflexivity|].
  replace ((0 + 1) * cell_h (ctx s)) with (cell_h (ctx s)) by lia.
  reflexivity.
Qed.

Lemma frame_without_lines_witness :
  raster_tobuf 640 640 480 buf_no_lines 14 state_8x16 =
    Done (1, {| x1 := 640; y1 := 480; x2 := 0; y2 := 16;
                ctx := set_cursor_state 1 ctx_8x16; vidp := [] |}).
Proof.
  refine (frame_without_lines 640 640 480 buf_no_lines 14 state_8x16 _ _ _).
  - vm_compute. discriminate.
  - vm_compute. repeat split; discriminate.
  - vm_compute. reflexivity.
Defined.

(** X14.  The four rectangle arguments of [raster_tobuf] are outputs only:
    an accepted decode returns the same state, rectangle included,
    whatever [x1], [y1], [x2] and [y2] held on entry, so the callers may
    pass locals that are not initialised. *)
Theorem raster_tobuf_outputs_write_only pitch max_w max_h buf buf_sz s t s' :
  ctx t = ctx s -> vidp t = vidp s ->
  raster_tobuf pitch max_w max_h buf buf_sz s = Done (1, s') ->
  raster_tobuf pitch max_w max_h buf buf_sz t = Done (1, s').
Proof.
  intros Hc Hv. unfold raster_tobuf.
  destruct ((buf_sz =? 0) || (buf_sz <? raster_hdr_sz)); [discriminate|].
  destruct (memcpy_from buf raster_hdr_sz) as [bytes|f]; [|discriminate].
  cbn [mbind outcome_bind].
  destruct (_ || _); [discriminate|].
  unfold set_x1, set_y1, set_x2, set_y2, set_ctx.
  cbn [x1 y1 x2 y2 ctx vidp]. rewrite Hc, Hv.
  destruct (negb _); intros H; exact H.
Qed.

Lemma raster_tobuf_outputs_write_only_witness :
  exists s',
    raster_tobuf 640 640 480 buf_one_cell_5_3 32 state_8x16 = Done (1, s') /\
    raster_tobuf 640 640 480 buf_one_cell_5_3 32
      {| x1 := 1; y1 := 2; x2 := 3; y2 := 4; ctx := ctx_8x16; vidp := [] |}
      = Done (1, s').
Proof.
  eexists. split; [vm_compute; reflexivity|].
  refine (raster_tobuf_outputs_write_only 640 640 480 buf_one_cell_5_3 32
            state_8x16 _ _ eq_refl eq_refl _).
  vm_compute. reflexivity.
Defined.

(** ** The corner of a dirty rectangle *)

Lemma call_from_le a b a' b' d :
  a' <= a -> b' <= b -> call_from a b d -> call_from a' b' d.
Proof.
  intros Ha Hb. destruct d; cbn; try tauto; try lia.
  intros (x & y & H1 & H2 & H3). exists x, y. repeat split; [exact H1|lia|lia].
Qed.

Lemma appended_call_from_le a b a' b' v l :
  a' <= a -> b' <= b ->
  appended (call_from a b) v l -> appended (call_from a' b') v l.
Proof.
  intros Ha Hb (calls & Hl & HP). exists calls. split; [exact Hl|].
  eapply Forall_impl; [exact HP|]. intros d. apply call_from_le; assumption.
Qed.

Lemma appended_app P v l calls :
  appended P v l -> Forall P calls -> appended P v (l ++ calls).
Proof.
  intros (c0 & Hl & HP) Hc. exists (c0 ++ calls).
  rewrite Hl, app_assoc. split; [reflexivity|].
  apply Forall_app. split; assumption.
Qed.

Section DirtyCorner.
Variables (pitch max_w max_h cw ch : Z) (v0 : list draw_call).
Hypothesis pitch_range : 0 <= pitch < 4294967296.
Hypothesis max_w_int : max_w <= 2147483648.
Hypothesis max_h_int : max_h <= 2147483648.
Hypothesis cw_range : 0 <= cw < 4294967296.
Hypothesis ch_range : 1 <= ch < 4294967296.

Let covered (s : rstate) : Prop :=
  cell_w (ctx s) = cw /\ cell_h (ctx s) = ch /\
  appended (call_from (x1 s) (y1 s)) v0 (vidp s).

Lemma line_marks_covered cl x y s :
  covered s -> x1 s <= x -> y1 s <= y -> 0 <= y -> y + ch < max_h ->
  covered (line_marks cl pitch x y max_w max_h s).
Proof.
  intros (Hw & Hh & Hv) Hx Hy Hy0 Hy1. unfold line_marks.
  destruct (_ && _); [|repeat split; assumption].
  destruct (linehint_bars cl pitch x y max_w max_h
              (has_attr cl CATTR_STRIKETHROUGH) (has_attr cl CATTR_UNDERLINE) s)
    as (bars & Hb & HF & _ & Hc & Hx1 & Hy1'); [lia | lia |].
  unfold covered. rewrite Hc, Hb, Hx1, Hy1'.
  repeat split; try assumption.
  apply appended_app; [exact Hv|].
  eapply Forall_impl; [exact HF|].
  intros d. destruct d; cbn; try tauto. lia.
Qed.

Lemma drawglyph_covered cl x y s :
  covered s ->
  x1 s <= x -> y1 s <= y -> 0 <= x -> x + cw < max_w ->
  0 <= y -> y + ch < max_h ->
  covered (snd (drawglyph cl pitch x y max_w max_h s)).
Proof.
  intros (Hw & Hh & Hv) Hx Hy Hx0 Hx1 Hy0 Hy1.
  assert (Hin : x1 s <= x /\ y1 s <= y) by (split; assumption).
  assert (Hofs : usize (y * pitch + x) = y * pitch + x)
    by (apply usize_small; nia).
  unfold drawglyph.
  destruct (negb (vector (fonts0 (ctx s)))); cbn [snd].
  - apply line_marks_covered; try assumption.
    repeat split; cbn [ctx emit vidp x1 y1]; try assumption.
    apply appended_emit; [exact Hv | exact Hin].
  - destruct (ucs4 cl =? 0); cbn [snd].
    + repeat split; cbn [ctx emit vidp x1 y1]; try assumption.
      apply appended_emit; [exact Hv | exact Hin].
    + rewrite Hw, Hh, Hofs.
      repeat match goal with
      | |- context [if ?b then _ else _] => destruct b
      end;
      (apply line_marks_covered;
       [|cbn [x1 y1 emit set_ctx]; assumption
        |cbn [x1 y1 emit set_ctx]; assumption|assumption|assumption]);
      repeat split;
      cbn [ctx emit set_ctx set_last_style cell_w cell_h vidp x1 y1];
      try assumption;
      (apply appended_emit;
       [repeat (apply appended_emit; [|first [exact I | exact Hin]]); exact Hv
       |cbn; exists x, y; split; [reflexivity | exact Hin]]).
Qed.

Lemma cells_loop_covered alpha (n : nat) :
  forall draw_y buf buf_sz draw_x s buf' buf_sz' s',
  covered s ->
  x1 s <= draw_x -> y1 s <= draw_y ->
  0 <= draw_x -> draw_x + Z.of_nat n * cw < 9223372036854775808 ->
  0 <= draw_y < 9223372036854775808 ->
  cells_loop pitch max_w max_h alpha n draw_y buf buf_sz draw_x s
    = Done (buf', buf_sz', s') ->
  covered s' /\ x1 s' = x1 s /\ y1 s' = y1 s.
Proof.
  induction n as [|n IH];
    intros draw_y buf buf_sz draw_x s buf' buf_sz' s' Hs Hx1 Hy1 Hx0 Hxn Hy Hrun.
  - simpl in Hrun. injection Hrun as <- <- <-. auto.
  - cbn [cells_loop] in Hrun.
    destruct (buf_sz <? raster_cell_sz);
      [injection Hrun as <- <- <-; auto|].
    apply bind_done_inv in Hrun as (bytes & _ & Hrun).
    pose proof Hs as (Hw & Hh & Hv). rewrite Hw, Hh in Hrun.
    assert (Hux : usize (draw_x + cw) = draw_x + cw) by (apply usize_small; lia).
    assert (Huy : usize (draw_y + ch) = draw_y + ch) by (apply usize_small; lia).
    rewrite Hux, Huy in Hrun.
    destruct (has_attr _ CATTR_SKIP);
      [eapply IH; [exact Hs| | | | |exact Hy|exact Hrun]; lia|].
    destruct (_ && _) eqn:Hguard;
      [|eapply IH; [exact Hs| | | | |exact Hy|exact Hrun]; lia].
    apply andb_true_iff in Hguard as [Hgx Hgy].
    apply Z.ltb_lt in Hgx. apply Z.ltb_lt in Hgy.
    rewrite (to_int_small draw_x), (to_int_small draw_y) in Hrun by lia.
    pose proof (drawglyph_covered (unpack_cell bytes alpha) draw_x draw_y s Hs
                  Hx1 Hy1 Hx0 Hgx ltac:(lia) Hgy) as Hg.
    pose proof (drawglyph_frame (unpack_cell bytes alpha) pitch
                  draw_x draw_y max_w max_h s) as (Hadv & Hfx1 & Hfy1 & _).
    destruct (drawglyph _ _ _ _ _ _ _) as [adv s1]. cbn [fst snd] in *.
    rewrite Hadv, Hw, Hux in Hrun.
    rewrite <- Hfx1, <- Hfy1.
    destruct (_ && _).
    + change (x1 s1) with (x1 (set_x2 (u16 (draw_x + cw + cw)) s1)).
      change (y1 s1) with (y1 (set_x2 (u16 (draw_x + cw + cw)) s1)).
      eapply IH; [| | | | |exact Hy|exact Hrun]; cbn [x1 y1 set_x2]; try lia.
      destruct Hg as (H1 & H2 & H3). repeat split; assumption.
    + eapply IH; [exact Hg| | | | |exact Hy|exact Hrun]; lia.
Qed.

(** The head of a line of a dirty frame: no call, and the corner is at or
    above and left of the line's first cell. *)
Lemma line_head_dirty bgc line cur_y last_line s :
  0 <= start_line line < 65536 -> 0 <= offset line < 65536 ->
  cell_w (ctx s) = cw -> cell_h (ctx s) = ch ->
  let '(_, cy, dy, dx, s1) :=
    line_head pitch max_w max_h bgc true line cur_y last_line s in
  cy = start_line line /\ dy = start_line line * ch /\
  dx = offset line * cw /\
  ctx s1 = ctx s /\ vidp s1 = vidp s /\
  x1 s1 <= dx /\ y1 s1 <= dy /\ x1 s1 <= x1 s /\
  (cur_y <> -1 -> y1 s1 <= y1 s).
Proof.
  intros Hsl Hof Hw Hh. unfold line_head. cbv zeta. rewrite Hw, Hh.
  assert (Hus : usize (start_line line * ch) = start_line line * ch)
    by (apply usize_small; nia).
  rewrite !(usize_small (offset line * cw)) by nia.
  pose proof (u16_le (start_line line * ch) ltac:(nia)) as Hu1.
  pose proof (u16_le (offset line * cw) ltac:(nia)) as Hu2.
  cbn [andb negb].
  destruct (cur_y =? -1) eqn:Hc1;
    (destruct (cur_y =? start_line line) eqn:Heq; cbn [negb];
     [apply Z.eqb_eq in Heq; subst cur_y|]);
    repeat match goal with
    | |- context [if ?b then _ else _] =>
        let H := fresh "Hb" in destruct b eqn:H
    end;
    cbn [x1 y1 ctx vidp set_x1 set_y1] in *;
    repeat match goal with
    | H : (_ <? _) = true |- _ => apply Z.ltb_lt in H
    | H : (_ <? _) = false |- _ => apply Z.ltb_ge in H
    | H : (_ =? _) = true |- _ => apply Z.eqb_eq in H
    | H : (_ =? _) = false |- _ => apply Z.eqb_neq in H
    end;
    rewrite ?Hus in *;
    repeat split; try reflexivity; try lia.
Qed.

Lemma lines_loop_covered alpha bgc (lines : nat) :
  forall buf buf_sz cur_y last_line s r s',
  covered s -> (cur_y = -1 -> vidp s = v0) ->
  lines_loop pitch max_w max_h alpha bgc true lines buf buf_sz
    cur_y last_line s = Done (r, s') ->
  covered s'.
Proof.
  assert (Hfin : forall ll s r s', covered s ->
            Done (tobuf_finish true ll s) = Done (r, s') -> covered s').
  { intros ll s r s' Hs. unfold tobuf_finish. intros [= _ <-].
    destruct Hs as (H1 & H2 & H3). repeat split; assumption. }
  induction lines as [|lines IH];
    intros buf buf_sz cur_y last_line s r s' Hs Hfirst Hrun.
  - cbn [lines_loop] in Hrun. eapply Hfin; eassumption.
  - cbn [lines_loop] in Hrun.
    destruct (buf_sz =? 0); [eapply Hfin; eassumption|].
    destruct (buf_sz <? raster_line_sz); [injection Hrun as <- <-; exact Hs|].
    apply bind_done_inv in Hrun as (bytes & _ & Hrun).
    set (line := line_of_bytes bytes) in *.
    assert (Hsl : 0 <= start_line line < 65536) by apply le16_at_range.
    assert (Hof : 0 <= offset line < 65536) by apply le16_at_range.
    assert (Hnc : 0 <= ncells line < 65536) by apply le16_at_range.
    destruct Hs as (Hw & Hh & Hv).
    pose proof (line_head_dirty bgc line cur_y last_line s Hsl Hof Hw Hh)
      as Hhead.
    destruct (line_head _ _ _ _ _ _ _ _ _) as [[[[ll cy] dy] dx] s1].
    destruct Hhead as (-> & -> & -> & Hc & Hvp & Hx & Hy & Hxm & Hym).
    apply bind_done_inv in Hrun as ([[buf1 sz1] s2] & Hcells & Hrun).
    assert (Hs1 : covered s1).
    { unfold covered. rewrite Hc, Hvp. repeat split; try assumption.
      destruct (Z.eq_dec cur_y (-1)) as [Hm1|Hne].
      - rewrite (Hfirst Hm1). apply appended_refl.
      - eapply appended_call_from_le; [exact Hxm | exact (Hym Hne) | exact Hv]. }
    eapply cells_loop_covered in Hcells;
      [|exact Hs1|exact Hx|exact Hy|nia|rewrite Z2Nat.id by lia; nia|nia].
    destruct Hcells as (Hs2 & _ & _).
    eapply IH; [exact Hs2| |exact Hrun]. intros Habs. lia.
Qed.

End DirtyCorner.

(** X19.  In dirty-frame mode, under the same bounds and with cells at
    least one pixel high, the corner ([x1], [y1]) that [raster_tobuf]
    returns is at or above and left of everything it drew: every box and
    every bitmap-font glyph of the call is at a position with [x1 <= x]
    and [y1 <= y], and every TrueType glyph is given the offset of such a
    position.  The truncation of the corner to 16 bits can only move it up
    or left. *)
Theorem dirty_corner_covers_calls pitch max_w max_h buf buf_sz s r s' :
  0 <= pitch < 4294967296 ->
  max_w <= 2147483648 -> max_h <= 2147483648 ->
  0 <= cell_w (ctx s) < 4294967296 ->
  1 <= cell_h (ctx s) < 4294967296 ->
  Z.land (hdr_flags (header_of_bytes (take (Z.to_nat raster_hdr_sz) buf)))
         RPACK_DFRAME <> 0 ->
  raster_tobuf pitch max_w max_h buf buf_sz s = Done (r, s') ->
  appended (call_from (x1 s') (y1 s')) (vidp s) (vidp s').
Proof.
  intros Hp Hmw Hmh Hcw Hch Hflag. unfold raster_tobuf.
  destruct ((buf_sz =? 0) || (buf_sz <? raster_hdr_sz));
    [intros [= _ <-]; apply appended_refl|].
  intros Hrun. apply bind_done_inv in Hrun as (bytes & Hread & Hrun).
  unfold memcpy_from in Hread.
  destruct (Z.of_nat (length buf) <? raster_hdr_sz); [discriminate|].
  injection Hread as <-.
  destruct (_ || _); [injection Hrun as _ <-; apply appended_refl|].
  apply Z.eqb_neq in Hflag. rewrite Hflag in Hrun. cbn [negb] in Hrun.
  eapply (lines_loop_covered pitch max_w max_h (cell_w (ctx s)) (cell_h (ctx s))
            (vidp s) Hp Hmw Hmh Hcw Hch) in Hrun.
  - destruct Hrun as (_ & _ & H). exact H.
  - cbn. repeat split. apply appended_refl.
  - intros _. reflexivity.
Qed.

Lemma dirty_corner_covers_calls_witness :
  exists s',
    raster_tobuf 640 640 480 buf_one_cell_5_3 32 state_8x16 = Done (1, s') /\
    x1 s' = 24 /\ y1 s' = 80 /\
    appended (call_from 24 80) [] (vidp s').
Proof.
  eexists. split; [vm_compute; reflexivity|].
  split; [reflexivity|]. split; [reflexivity|].
  refine (dirty_corner_covers_calls 640 640 480 buf_one_cell_5_3 32
            state_8x16 1 _ _ _ _ _ _ _ _);
    try (cbn [ctx state_8x16 cell_w cell_h ctx_8x16]; lia).
  - vm_compute. discriminate.
  - vm_compute. reflexivity.
Defined.

(** X18.  In full-frame mode, for a destination whose dimensions fit the
    16-bit outputs, every call of [raster_tobuf] on a buffer that passes
    the size check reports the whole destination, (0, 0, max_w, max_h),
    whatever lines and cells follow and whether the call returns 1 or
    -1. *)
Theorem full_frame_reports_whole_destination
  pitch max_w max_h buf buf_sz s r s' :
  0 <= max_w < 65536 ->
  0 <= max_h < 65536 ->
  size_check (header_of_bytes (take (Z.to_nat raster_hdr_sz) buf)) buf_sz ->
  Z.land (hdr_flags (header_of_bytes (take (Z.to_nat raster_hdr_sz) buf)))
         RPACK_DFRAME = 0 ->
  raster_tobuf pitch max_w max_h buf buf_sz s = Done (r, s') ->
  x1 s' = 0 /\ y1 s' = 0 /\ x2 s' = max_w /\ y2 s' = max_h.
Proof.
  apply full_frame_rect.
Qed.

Lemma full_frame_reports_whole_destination_witness :
  exists s',
    raster_tobuf 640 640 480 buf_gap_row 50 state_8x16 = Done (1, s') /\
    x1 s' = 0 /\ y1 s' = 0 /\ x2 s' = 640 /\ y2 s' = 480.
Proof.
  eexists. split; [vm_compute; reflexivity|].
  refine (full_frame_reports_whole_destination 640 640 480 buf_gap_row 50
            state_8x16 1 _ _ _ _ _ _); try lia.
  - vm_compute. repeat split; discriminate.
  - vm_compute. reflexivity.
  - vm_compute. reflexivity.
Defined.

(** ** The style cache *)

Lemma style_after_app l1 : forall cur l2,
  style_after cur (l1 ++ l2) = style_after (style_after cur l1) l2.
Proof.
  induction l1 as [|d l1 IH]; intros cur l2; [reflexivity|].
  destruct d as [| |[|?|?] ?|]; cbn [style_after app]; apply IH.
Qed.

Lemma style_trace_app l1 : forall cur l2,
  style_trace cur l1 -> style_trace (style_after cur l1) l2 ->
  style_trace cur (l1 ++ l2).
Proof.
  induction l1 as [|d l1 IH]; intros cur l2 H1 H2; [exact H2|].
  destruct d as [| |[|?|?] ?|]; cbn [style_trace style_after app] in *;
    try (apply IH; assumption);
    (destruct H1 as [Hd H1]; split; [exact Hd | apply IH; assumption]).
Qed.

Lemma style_cache_emit ls0 v0 d s :
  style_trace (last_style (ctx s)) [d] ->
  style_cache ls0 v0 s ->
  style_cache ls0 v0
    (emit d (set_ctx (set_last_style (style_after (last_style (ctx s)) [d])
                        (ctx s)) s)).
Proof.
  intros Hd (calls & Hv & Hn & Hl). exists (calls ++ [d]).
  cbn [vidp emit ctx set_ctx set_last_style last_style].
  rewrite Hv, app_assoc, style_after_app, <- Hl.
  split; [reflexivity|]. split; [|reflexivity].
  apply style_trace_app; [exact Hn|]. rewrite <- Hl. exact Hd.
Qed.

Lemma style_cache_frame ls0 v0 s t :
  vidp t = vidp s -> last_style (ctx t) = last_style (ctx s) ->
  style_cache ls0 v0 s -> style_cache ls0 v0 t.
Proof.
  intros Hv Hl (calls & H1 & H2 & H3). exists calls.
  rewrite Hv, Hl. auto.
Qed.

(** A call that neither sets the style of the first font nor renders a
    glyph. *)
Lemma style_cache_other ls0 v0 d s :
  (forall cur, style_trace cur [d]) -> (forall cur, style_after cur [d] = cur) ->
  style_cache ls0 v0 s -> style_cache ls0 v0 (emit d s).
Proof.
  intros Ht Ha Hs.
  pose proof (style_cache_emit ls0 v0 d s (Ht _) Hs) as H.
  rewrite Ha in H.
  eapply style_cache_frame; [| |exact H]; reflexivity.
Qed.

Lemma line_marks_style_cache ls0 v0 cl pitch x y maxx maxy s :
  style_cache ls0 v0 s ->
  style_cache ls0 v0 (line_marks cl pitch x y maxx maxy s).
Proof.
  intros Hs. unfold line_marks, linehint.
  repeat match goal with
  | |- context [if ?b then _ else _] => destruct b
  end;
  repeat (apply style_cache_other; [intros; exact I | reflexivity |]);
  exact Hs.
Qed.

Lemma drawglyph_style_cache ls0 v0 cl pitch x y maxx maxy s :
  style_cache ls0 v0 s ->
  style_cache ls0 v0 (snd (drawglyph cl pitch x y maxx maxy s)).
Proof.
  intros Hs. unfold drawglyph.
  destruct (negb (vector (fonts0 (ctx s)))); cbn [snd].
  - apply line_marks_style_cache.
    apply style_cache_other; [intros; exact I | reflexivity | exact Hs].
  - destruct (ucs4 cl =? 0); cbn [snd].
    + apply style_cache_other; [intros; exact I | reflexivity | exact Hs].
    + apply line_marks_style_cache.
      set (prem := Z.lor _ _).
      set (box := Call_draw_box_px _ _ _ _ _ _ _ _).
      assert (Hbox : style_cache ls0 v0 (emit box s))
        by (apply style_cache_other;
            [intros; exact I | reflexivity | exact Hs]).
      assert (Hrender : forall t, style_cache ls0 v0 t ->
        forall ofs w h p n cp fg bg,
        style_cache ls0 v0
          (emit (Call_TTF_RenderUNICODEglyph ofs w h p n cp fg bg
                   (last_style (ctx t))) t)).
      { intros t Ht ofs w h p n cp fg bg.
        pose proof (style_cache_emit ls0 v0
          (Call_TTF_RenderUNICODEglyph ofs w h p n cp fg bg
             (last_style (ctx t))) t) as H.
        cbn [style_trace style_after] in H.
        eapply style_cache_frame; [| |exact (H (conj eq_refl I) Ht)];
          reflexivity. }
      destruct (negb (prem =? last_style (ctx s))) eqn:Hne;
        [|apply Hrender; exact Hbox].
      apply negb_true_iff, Z.eqb_neq in Hne.
      assert (Hset : style_cache ls0 v0
                (emit (Call_TTF_SetFontStyle 0 prem)
                   (set_ctx (set_last_style prem (ctx s)) (emit box s)))).
      { pose proof (style_cache_emit ls0 v0 (Call_TTF_SetFontStyle 0 prem)
                      (emit box s)) as H.
        cbn [style_trace style_after] in H.
        apply H; [split; [exact Hne | exact I] | exact Hbox]. }
      destruct (vector (fonts1 (ctx s)) && truetype (fonts1 (ctx s)));
        apply Hrender;
        [apply style_cache_other; [intros; exact I | reflexivity |]|];
        exact Hset.
Qed.

(** X20.  The style cache works over a whole decode: in the calls made by
    [raster_tobuf], [TTF_SetFontStyle] is called for the first font only
    with a style that differs from the one in force (the cached style on
    entry, then the style last set), every TrueType glyph is rendered with
    the style in force at that point, and on return [last_style] is the
    style in force. *)
Theorem style_set_only_on_change pitch max_w max_h buf buf_sz s r s' :
  raster_tobuf pitch max_w max_h buf buf_sz s = Done (r, s') ->
  exists calls, vidp s' = vidp s ++ calls /\
    style_trace (last_style (ctx s)) calls /\
    last_style (ctx s') = style_after (last_style (ctx s)) calls.
Proof.
  assert (Hrefl : style_cache (last_style (ctx s)) (vidp s) s).
  { exists []. rewrite app_nil_r. cbn. auto. }
  unfold raster_tobuf.
  destruct ((buf_sz =? 0) || (buf_sz <? raster_hdr_sz));
    [intros [= _ <-]; exact Hrefl|].
  intros Hrun. apply bind_done_inv in Hrun as (bytes & _ & Hrun).
  destruct (_ || _); [injection Hrun as _ <-; exact Hrefl|].
  eapply (lines_loop_invariant (style_cache (last_style (ctx s)) (vidp s)));
    [| | | | | | |exact Hrun].
  - intros. apply drawglyph_style_cache. assumption.
  - intros v st. apply style_cache_frame; reflexivity.
  - intros v st. apply style_cache_frame; reflexivity.
  - intros v st. apply style_cache_frame; reflexivity.
  - intros v st. apply style_cache_frame; reflexivity.
  - intros. apply style_cache_other; [intros; exact I | reflexivity | assumption].
  - eapply style_cache_frame; [| |exact Hrefl]; destruct (negb _); reflexivity.
Qed.

Lemma style_set_only_on_change_witness :
  exists s',
    raster_tobuf 640 640 480 buf_two_bold 44 state_vector_8x16
      = Done (1, s') /\
    style_trace (-1) (vidp s') /\ last_style (ctx s') = 1.
Proof.
  eexists. split; [vm_compute; reflexivity|].
  destruct (style_set_only_on_change 640 640 480 buf_two_bold 44
              state_vector_8x16 1 _ ltac:(vm_compute; reflexivity))
    as (calls & Hv & Ht & Hl).
  cbn [vidp state_vector_8x16 app] in Hv. subst calls.
  split; [exact Ht | exact Hl].
Defined.

End RasterProps.
